(* ===== verification/_CoqProject ===== *)
-Q . S2P
Prelude.v
Cell.v
Board.v
Rules.v
Positions.v
Render.v
Text.v
Game.v
Console.v
