(* ===== verification/Prelude.v ===== *)
(** * tictacterm: a verified model of the terminal tic-tac-toe referee

    The program ([src/src/main.rs], one Rust file) is a two-player
    tic-tac-toe game on a text console.  It has one stateful component, the
    board ([TicTacToeBoard], a fixed array of nine [BoardCell]s with the
    operations [isFull], [checkVertical], [checkHorizontal] and
    [changeState]), three small data types with their [Display]
    implementations ([BoardCell], [BoardError], [GameState]) and the turn
    loop of [main], which reads a line, splits and parses it, calls
    [changeState], alternates the player and prints the outcome.

    ** Files, in dependency order

    - [Prelude] (this file).  What every component shares: Rust's
      [Result]; the [Run] monad, whose [Panic] outcome models the three ways
      the Rust code can abort (an array index out of bounds, an arithmetic
      overflow of [usize], [unreachable!()]); [usize] as [N] with its width
      taken from a [Target] (Rust fixes it per platform, at least 16 bits)
      and checked addition and multiplication; array indexing [index] and
      in-place update [index_set] on lists with the bounds check written
      out; the short-circuit conjunction [and_then] of Rust's [&&]; the
      [Display] class; the tactics and the hint databases of the
      development.
    - [Cell].  The enums [BoardCell] (lines 2-16), [BoardError] (18-30) and
      [GameState] (101-119), with constructors named as in the source, each
      in a module of its name, and their [Display] instances.
    - [Board].  Module [TicTacToeBoard]: the struct (32-34), [default]
      (40-46), [isFull] with its [for]/[break] loop (48-57),
      [checkVertical] (59-61), [checkHorizontal] (63-66), [changeState]
      (68-98) as a function from the board before the call to the board
      after it and the [Result] returned, and [fmt] (35-39).  The array
      [[BoardCell; 9]] is a list here, and [wf] (nine cells) is a
      hypothesis of the theorems that read the cells; the boards of the
      game satisfy it ([default_wf], [place_wf]).  The theorems are the
      absence of panics and the behaviour of [changeState] on every
      branch.
    - [Rules].  The rules of the game stated independently of the code:
      the eight winning lines, [wins], [full], the [outcome] a move should
      produce and the [status] of a board; the variables of [main] that a
      move changes ([Game]: board, player to move, state; lines 122-125)
      and the iteration in which [changeState] accepts the move ([play],
      as a function [step]; lines 157-170).  The theorems: [changeState]
      computes the outcome by the rules although it examines four lines
      only; the steps of the program are the moves of the rules (a
      simulation in both directions); and, by induction on the moves
      played, the invariant [game_inv] of every reachable position: nine
      cells, the players alternate, the state recorded is the status of
      the board, at most one player has a line, at most nine moves.
    - [Positions].  The game run in full: [table] is computed by applying
      every move of the rules to every position found, from the initial
      position, and holds the 5478 positions of the game by number of
      moves.  The theorems: the positions the program reaches after [n]
      accepted moves are exactly line [n] of the table, so that a property
      of all of them is proved by evaluating it on the table; a game ends
      at move 5, 7 or 9 if X wins, 6 or 8 if O wins, 9 if it is a draw.
    - [Render].  The text of a board as a function of its nine cells
      ([render]) and a parser of that text ([unrender]), which are not in
      the program: they state what [fmt] (35-39) produces.  The theorems:
      [fmt] is total on boards of nine cells, its text has 30 characters
      and determines the board.
    - [Text].  The three functions of Rust's standard library that [main]
      calls on the line read: [split_space] for [userInput.split(' ')]
      (137), [trim] and [parse_usize] for [args[i].trim().parse::<usize>()]
      (142), over strings as sequences of bytes, with the errors of
      [ParseIntError].  The theorems: [split_space] inverts joining with
      single spaces; [trim] removes all White_Space from both ends;
      [parse_usize] returns [Ok n] exactly for an optional [+] and digits
      that denote [n] when [n] fits [usize], and is checked against a
      reference definition ([parse_ref]) on every input.
    - [Game].  [main] (121-174): the state [Main] (the [Game] and the lines
      printed), the loop body [iteration] with every branch (wrong number
      of pieces, the four results of the two parses, the result of
      [changeState], a failed read), the loop [main_loop] over the results
      of [read_line], and the final [println!].  The theorems: [main]
      never panics; an iteration leaves the game as it is or makes one
      step of [Rules.play]; a line "x y" plays [(x, y)]; a move that
      [changeState] refuses and a piece that is not a number print their
      message and leave the game as it is; the message printed at exit is
      the status of the final board by the rules, in the words of the
      source for each result; at most nine lines are accepted; at the end
      of input the loop does not exit.  The games of the specification
      are run through [main].

    - [Console].  [main] again, as an interaction tree ([main_it]): a
      program that performs the events [ReadLn] and [PrintLn] in the order
      of the source and loops with the library's [ITree.iter], so that
      runs that never end are covered.  [console] is the console of a run
      on a file or a pipe: the lines in turn, then the empty line of the
      end of input at every read.  The theorems: against every console
      [main_it] returns without a panic if it returns; on an input that
      holds a complete game its run is the run of [Game.main]; on an input
      that ends with the game in progress its run never returns.

    ** How the code is modelled

    A [&mut self] method is a function that returns the new value of
    [self] beside its result.  An expression that can panic has type
    [Run A]; the theorems of [Board] show that on a board of nine cells no
    operation panics, so the debug and the release build (where [usize]
    overflow wraps instead of aborting) agree on every path.  Indices are
    [usize] values, hence [N] bounded by [usize_MAX]; cells are a [list]
    read with stdpp's [!!] and written with [<[_:=_]>], behind the bounds
    check Rust performs.  The console is represented by its contents: the
    input is the list of results of [read_line] ([Line] with the text read,
    line feed included, or [ReadError]; the end of input is [Line] with
    the empty string, as [read_line] returns [Ok(0)]), the output is the
    list of the lines printed.  All definitions of the files up to [Game]
    are executable: the examples and witnesses evaluate them with
    [vm_compute].  The interaction tree of [Console] is run by
    interpreting its events ([Console.run]) and reasoned about by
    rewriting up to the tree equivalence of the library.

    ** Bounds and fuel

    [isFull] recurses on the list of cells and [changeState] is loop-free.
    [Text.strip_start], the loop of [trim], takes the length of the string
    as fuel: every character stripped shortens the string, and
    [Text.trim_spec] proves that nothing is left to strip when it stops.
    [Text.digits_of], the decimal printer used to state the theorems on
    [parse_usize], takes the number of bits of the number as fuel, enough
    by [Text.digits_of_spec].  The loop of [main] runs on a finite list of
    reads: it stops when the game has ended or the list is used up, and
    [main] then returns [Exited], with the result printed, or [Waiting],
    with the board and the prompt of the next iteration printed, which is
    where the program is blocked in [read_line]; that a longer input
    continues from where the loop stopped is [Game.main_loop_app]; the
    tree of [Console] has no such bound.  The search of [Positions] goes to
    depth 9, which is every position: no game has a tenth move
    ([Rules.nsteps_play_le_9]).  [Target]
    is a parameter of the theorems; the witnesses instantiate it with
    [target64] or [target32].

    ** Not modelled

    Terminal I/O itself ([stdin], [println!]) beyond the lines read and
    the lines written: buffering, blocking, the encoding of the terminal.
    A [println!] that cannot write to the standard output panics in Rust;
    here every [println!] succeeds, so "never panics" is said of runs in
    which the output can be written.  The formatting machinery of
    [std::fmt] ([Formatter], [write!] failing) is represented by the
    string produced.  A line read is any string of bytes, which includes
    every line of valid UTF-8 that [read_line] can return.  The reuse of the buffer
    [userInput] is represented by a fresh line per read, which is what
    [userInput.clear()] achieves.  The standard-library functions of
    [Text] are modelled from their documentation, not from their source:
    the program holds only the calls, at lines 137 and 142. *)

From stdpp Require Import base tactics decidable option list numbers strings.

(** ** Rust's [Result] *)

Inductive Result (T E : Type) : Type :=
| Ok (t : T)
| Err (e : E).

Arguments Ok {T E} t.
Arguments Err {T E} e.

Definition is_Ok {T E} (r : Result T E) : bool :=
  match r with Ok _ => true | Err _ => false end.

(** ** Computations that may panic *)

Inductive PanicKind : Type :=
| IndexOutOfBounds
| ArithmeticOverflow
| Unreachable.

Inductive Run (A : Type) : Type :=
| Return (a : A)
| Panic (p : PanicKind).

Arguments Return {A} a.
Arguments Panic {A} p.

#[export] Instance Run_ret : MRet Run := @Return.

#[export] Instance Run_bind : MBind Run := λ A B f m,
  match m with
  | Return a => f a
  | Panic p => Panic p
  end.

#[export] Instance Run_fmap : FMap Run := λ A B f m,
  match m with
  | Return a => Return (f a)
  | Panic p => Panic p
  end.

Definition no_panic {A} (m : Run A) : bool :=
  match m with Return _ => true | Panic _ => false end.

(** Rust's [a && b]: [b] is evaluated only when [a] is [true]. *)
Definition and_then (a b : Run bool) : Run bool :=
  x ← a; if x : bool then b else mret false.

Declare Scope run_scope.
Delimit Scope run_scope with run.
Notation "a &&& b" := (and_then a b)
  (at level 40, left associativity) : run_scope.

(** ** [usize] *)

Class Target : Type := {
  usize_bits : N;
  usize_bits_min : (16 ≤ usize_bits)%N;
}.

Definition usize : Type := N.

Definition usize_MAX `{Target} : usize := (2 ^ usize_bits - 1)%N.

Definition usize_add `{Target} (a b : usize) : Run usize :=
  if decide (a + b ≤ usize_MAX)%N then Return (a + b)%N
  else Panic ArithmeticOverflow.

Definition usize_mul `{Target} (a b : usize) : Run usize :=
  if decide (a * b ≤ usize_MAX)%N then Return (a * b)%N
  else Panic ArithmeticOverflow.

Arguments usize_add {_} (a b)%_N.
Arguments usize_mul {_} (a b)%_N.

Lemma target64_min : (16 ≤ 64)%N.
Proof. lia. Qed.

Lemma target32_min : (16 ≤ 32)%N.
Proof. lia. Qed.

Definition target64 : Target :=
  {| usize_bits := 64; usize_bits_min := target64_min |}.

Definition target32 : Target :=
  {| usize_bits := 32; usize_bits_min := target32_min |}.

(** ** Arrays: [a[i]] and [a[i] = v] with Rust's bounds check *)

Definition index {A} (l : list A) (i : usize) : Run A :=
  match l !! N.to_nat i with
  | Some a => Return a
  | None => Panic IndexOutOfBounds
  end.

Definition index_set {A} (l : list A) (i : usize) (v : A) : Run (list A) :=
  if decide (N.to_nat i < length l) then Return (<[N.to_nat i := v]> l)
  else Panic IndexOutOfBounds.

Arguments index {A} l i%_N.
Arguments index_set {A} l i%_N v.

(** ** [std::fmt::Display]: the text a value is written as *)

Class Display (A : Type) : Type := fmt : A → Run string.

(** The line feed that Rust writes as a backslash followed by [n]. *)
Definition LF : string := String (Ascii.ascii_of_N 10) "".

(** ** Hint databases and tactics *)

Create HintDb ttt discriminated.
Create Rewrite HintDb run.

(** [inverts H]: inversion that cleans up after itself. *)
Ltac inverts H := inversion H; subst; clear H.

(** Splits a hypothesis [i < 3] on [N] into the three values of [i]. *)
Ltac case_lt3 i :=
  let H := fresh in
  assert (H : i = 0%N ∨ i = 1%N ∨ i = 2%N) by lia;
  destruct H as [-> | [-> | ->]].

(** Names the elements of a list known to have a given concrete length. *)
Ltac list_of_length l :=
  repeat match goal with
  | H : length l = S _ |- _ =>
      destruct l as [|? l]; simpl in H; [discriminate H|];
      apply Nat.succ_inj in H
  | H : length l = 0 |- _ => destruct l; [clear H | discriminate H]
  end.

Section run_laws.
Context {A B C : Type}.
Implicit Types (m : Run A) (f : A → Run B) (g : B → Run C).

Lemma bind_Return a f : Return a ≫= f = f a.
Proof. reflexivity. Qed.

Lemma bind_Panic p f : Panic p ≫= f = Panic p.
Proof. reflexivity. Qed.

Lemma bind_Return_r m : m ≫= Return = m.
Proof. by destruct m. Qed.

Lemma bind_assoc m f g : (m ≫= f) ≫= g = m ≫= (λ a, f a ≫= g).
Proof. by destruct m. Qed.

Lemma bind_returns m f b :
  m ≫= f = Return b ↔ ∃ a, m = Return a ∧ f a = Return b.
Proof.
  destruct m as [a|p]; simpl; split.
  - eauto.
  - by intros (? & [= <-] & ?).
  - discriminate.
  - by intros (? & [=] & _).
Qed.

Lemma no_panic_Return m : no_panic m = true ↔ ∃ a, m = Return a.
Proof.
  destruct m; simpl; split; eauto; try discriminate.
  by intros [? [=]].
Qed.

Lemma fmap_Return (h : A → B) a : h <$> Return a = Return (h a).
Proof. reflexivity. Qed.

End run_laws.

#[export] Hint Rewrite @bind_Return @bind_Panic @bind_Return_r : run.

Lemma and_then_Return (a b : bool) :
  (Return a &&& Return b)%run = Return (a && b).
Proof. by destruct a. Qed.

Lemma and_then_false (b : Run bool) : (Return false &&& b)%run = Return false.
Proof. reflexivity. Qed.

Lemma and_then_true (b : Run bool) : (Return true &&& b)%run = b.
Proof. reflexivity. Qed.

#[export] Hint Rewrite and_then_false and_then_true : run.

Section usize_laws.
Context `{Target}.

Lemma usize_MAX_ge : (65535 ≤ usize_MAX)%N.
Proof.
  unfold usize_MAX. pose proof usize_bits_min.
  assert (2 ^ 16 ≤ 2 ^ usize_bits)%N by (apply N.pow_le_mono_r; lia).
  change (2 ^ 16)%N with 65536%N in *. lia.
Qed.

Lemma usize_add_small a b :
  (a + b ≤ 65535)%N → usize_add a b = Return (a + b)%N.
Proof.
  intros. unfold usize_add. pose proof usize_MAX_ge.
  case_decide; [done | lia].
Qed.

Lemma usize_mul_small a b :
  (a * b ≤ 65535)%N → usize_mul a b = Return (a * b)%N.
Proof.
  intros. unfold usize_mul. pose proof usize_MAX_ge.
  case_decide; [done | lia].
Qed.

Lemma usize_add_returns a b c :
  usize_add a b = Return c ↔ (c = a + b ∧ a + b ≤ usize_MAX)%N.
Proof.
  unfold usize_add. case_decide; split;
    [by intros [= <-] | by intros [-> _] | done | intros [_ ?]; lia].
Qed.

Lemma usize_mul_returns a b c :
  usize_mul a b = Return c ↔ (c = a * b ∧ a * b ≤ usize_MAX)%N.
Proof.
  unfold usize_mul. case_decide; split;
    [by intros [= <-] | by intros [-> _] | done | intros [_ ?]; lia].
Qed.

End usize_laws.

Section index_laws.
Context {A : Type}.
Implicit Types (l : list A) (i : usize) (a v : A).

Lemma index_returns l i a : index l i = Return a ↔ l !! N.to_nat i = Some a.
Proof. unfold index. destruct (l !! N.to_nat i); naive_solver. Qed.

Lemma index_lt l i : N.to_nat i < length l → ∃ a, index l i = Return a.
Proof.
  intros [a Ha]%lookup_lt_is_Some_2. exists a. by apply index_returns.
Qed.

Lemma index_ge l i : length l ≤ N.to_nat i → index l i = Panic IndexOutOfBounds.
Proof. intros Hge%lookup_ge_None_2. unfold index. by rewrite Hge. Qed.

Lemma index_set_lt l i v :
  N.to_nat i < length l → index_set l i v = Return (<[N.to_nat i := v]> l).
Proof. intros. unfold index_set. by case_decide. Qed.

Lemma index_set_ge l i v :
  length l ≤ N.to_nat i → index_set l i v = Panic IndexOutOfBounds.
Proof. intros. unfold index_set. case_decide; [lia | done]. Qed.

Lemma index_set_length l i v l' :
  index_set l i v = Return l' → length l' = length l.
Proof.
  unfold index_set. case_decide; [|done]. intros [= <-]. apply length_insert.
Qed.

Lemma index_index_set l i j v l' :
  index_set l i v = Return l' →
  index l' j = if decide (i = j) then Return v else index l j.
Proof.
  unfold index_set. case_decide as Hi; [|done]. intros [= <-].
  unfold index. case_decide as Hij.
  - subst j. by rewrite list_lookup_insert_eq.
  - rewrite list_lookup_insert_ne; [done | lia].
Qed.

End index_laws.

Section list_laws.
Context {A : Type}.
Implicit Types (f : A → bool) (l : list A).

(** A failed [forallb] has a witness, at a position of the list. *)
Lemma forallb_false f l :
  forallb f l = false ↔ ∃ i a, l !! i = Some a ∧ f a = false.
Proof.
  induction l as [|a l IH]; simpl.
  - split; [done | by intros (? & ? & ? & _)].
  - rewrite andb_false_iff, IH. split.
    + intros [Ha | (i & a' & Hi & Ha')]; [by exists 0, a | by exists (S i), a'].
    + intros ([|i] & a' & Hi & Ha'); simplify_eq/=; eauto.
Qed.

End list_laws.

#[export] Hint Resolve usize_MAX_ge : ttt.
