(* ===== verification/Cell.v ===== *)
(** * Cell: the enums of [main.rs] and their [Display] implementations

    [BoardCell] (a cell of the grid, also used for the player to move and
    for the winner), [BoardError] (why [changeState] refused a move) and
    [GameState] (what [changeState] reports after a move).  Each enum sits in
    a module of its name, so that a constructor reads as in Rust:
    [BoardCell.None], [GameState.End BoardCell.X].  [BoardCell.eq] is the
    [==] that [#[derive(PartialEq)]] generates; [BoardCell.eq_spec] relates
    it to equality, and the [EqDecision] and [Finite] instances let [decide]
    settle statements quantified over cells. *)

From stdpp Require Import base decidable finite list strings.
From S2P Require Import Prelude.

Module BoardCell.

Inductive t : Type :=
| X
| O
| None.

(** [#[derive(PartialEq)]]: two cells are equal when they are the same
    variant. *)
Definition eq (a b : t) : bool :=
  match a, b with
  | X, X | O, O | None, None => true
  | _, _ => false
  end.

(** [impl Display for BoardCell]. *)
Definition fmt (self : t) : Run string :=
  match self with
  | X => mret "X"
  | O => mret "O"
  | None => mret " "
  end.

End BoardCell.

Abbreviation BoardCell := BoardCell.t.

Module BoardError.

Inductive t : Type :=
| OutOfBounds
| AlreadyChanged.

(** [impl Display for BoardError]. *)
Definition fmt (self : t) : Run string :=
  match self with
  | OutOfBounds => mret "Invalid index, max range of x and y is 2"
  | AlreadyChanged =>
      mret "You can't change your or a previous player's answer"
  end.

End BoardError.

Abbreviation BoardError := BoardError.t.

Module GameState.

Inductive t : Type :=
| InProgress
| End (player : BoardCell).

(** [impl Display for GameState]. *)
Definition fmt (self : t) : Run string :=
  match self with
  | InProgress => mret "In progress game state"
  | End player =>
      match player with
      | BoardCell.X => mret "Player 1 wins!"
      | BoardCell.O => mret "Player 2 wins!"
      | BoardCell.None => mret "The game was a draw"
      end
  end.

End GameState.

Abbreviation GameState := GameState.t.

#[export] Instance BoardCell_Display : Display BoardCell := BoardCell.fmt.
#[export] Instance BoardError_Display : Display BoardError := BoardError.fmt.
#[export] Instance GameState_Display : Display GameState := GameState.fmt.

#[export] Instance BoardCell_eq_dec : EqDecision BoardCell.
Proof. solve_decision. Defined.

#[export] Instance BoardError_eq_dec : EqDecision BoardError.
Proof. solve_decision. Defined.

#[export] Instance GameState_eq_dec : EqDecision GameState.
Proof. solve_decision. Defined.

#[export] Instance BoardCell_inhabited : Inhabited BoardCell :=
  populate BoardCell.None.

#[export, refine] Instance BoardCell_finite : Finite BoardCell :=
  {| enum := [BoardCell.X; BoardCell.O; BoardCell.None] |}.
Proof.
  - by apply (bool_decide_unpack _).
  - intros []; rewrite !elem_of_cons; auto.
Defined.

(** A cell that holds a player's mark. *)
Definition is_mark (c : BoardCell) : bool :=
  negb (BoardCell.eq c BoardCell.None).

Section cell_lemmas.
Implicit Types (a b c : BoardCell).

Lemma BoardCell_eq_spec a b : BoardCell.eq a b = bool_decide (a = b).
Proof. by destruct a, b. Qed.

Lemma BoardCell_eq_true a b : BoardCell.eq a b = true ↔ a = b.
Proof. rewrite BoardCell_eq_spec. apply bool_decide_eq_true. Qed.

Lemma BoardCell_eq_false a b : BoardCell.eq a b = false ↔ a ≠ b.
Proof. rewrite BoardCell_eq_spec. apply bool_decide_eq_false. Qed.

Lemma BoardCell_eq_refl a : BoardCell.eq a a = true.
Proof. by destruct a. Qed.

Lemma BoardCell_eq_sym a b : BoardCell.eq a b = BoardCell.eq b a.
Proof. by destruct a, b. Qed.

Lemma is_mark_true c : is_mark c = true ↔ c ≠ BoardCell.None.
Proof. by destruct c. Qed.

Lemma is_mark_cases c : is_mark c = true → c = BoardCell.X ∨ c = BoardCell.O.
Proof. destruct c; auto; discriminate. Qed.

(** Every value of the three enums has a text, and the texts of distinct
    values differ: the console output identifies the value printed. *)
Lemma BoardCell_fmt_total c : ∃ s, fmt c = Return s.
Proof. destruct c; eauto. Qed.

Lemma BoardCell_fmt_inj a b : fmt a = fmt b → a = b.
Proof. by destruct a, b. Qed.

Lemma BoardCell_fmt_length c s : fmt c = Return s → String.length s = 1.
Proof. by destruct c; intros [= <-]. Qed.

Lemma BoardError_fmt_inj (e1 e2 : BoardError) : fmt e1 = fmt e2 → e1 = e2.
Proof. by destruct e1, e2. Qed.

Lemma GameState_fmt_inj (g1 g2 : GameState) : fmt g1 = fmt g2 → g1 = g2.
Proof. by destruct g1 as [|[]], g2 as [|[]]. Qed.

End cell_lemmas.

#[export] Hint Rewrite BoardCell_eq_refl : run.
#[export] Hint Resolve BoardCell_fmt_total : ttt.
