(* ===== verification/Board.v ===== *)
(** * Board: [TicTacToeBoard] and its operations

    Module [TicTacToeBoard] holds the struct and one definition per method
    of [impl TicTacToeBoard], [impl Default] and [impl Display].  The array
    [cells: [BoardCell; 9]] is a list; [wf] says it has nine elements, which
    the Rust type guarantees.  It is a hypothesis of the theorems that read
    the cells; the boards of the game have nine cells because [default] has
    and [place] keeps the length ([default_wf], [place_wf]).

    [changeState] takes the board before the call and returns the board
    after it together with the [Result]; the early [return Err(..)] of the
    source are the branches that hand the board back untouched.

    The theorems: no operation panics on a well-formed board
    ([changeState_no_panic]); [changeState] refuses coordinates out of range
    and occupied cells without touching the board, and otherwise writes
    exactly the addressed cell ([changeState_out_of_bounds],
    [changeState_occupied], [changeState_places]); what it returns is decided
    by the column, the row and the two diagonals, then by [isFull]
    ([changeState_places]); [isFull] is the loop-free test "no cell is
    [None]" ([isFull_spec]). *)

From stdpp Require Import base decidable list numbers strings.
From S2P Require Import Prelude Cell.

Module TicTacToeBoard.

Record t : Type := { cells : list BoardCell }.

(** [impl Default]: [cells: [BoardCell::None; 9]]. *)
Definition default : t := {| cells := replicate 9 BoardCell.None |}.

(** The body of [for cell in self.cells] in [isFull], with the flag
    [boardFull] it updates: a [None] cell clears the flag and leaves the
    loop. *)
Fixpoint isFull_loop (rest : list BoardCell) (boardFull : bool) : bool :=
  match rest with
  | [] => boardFull
  | cell :: rest' =>
      if BoardCell.eq cell BoardCell.None then false
      else isFull_loop rest' boardFull
  end.

Definition isFull (self : t) : bool := isFull_loop (cells self) true.

(** [self.cells[i] == cellState]. *)
Definition cell_is (self : t) (i : usize) (cellState : BoardCell) : Run bool :=
  c ← index (cells self) i; mret (BoardCell.eq c cellState).

Section methods.
Context `{Target}.
Local Open Scope N_scope.

Definition checkVertical (self : t) (cellState : BoardCell) (x : usize)
  : Run bool :=
  (cell_is self x cellState
   &&& (i ← usize_add x 3; cell_is self i cellState)
   &&& (i ← usize_add x 6; cell_is self i cellState))%run.

Definition checkHorizontal (self : t) (cellState : BoardCell) (y : usize)
  : Run bool :=
  x ← usize_mul 3 y;
  (cell_is self x cellState
   &&& (i ← usize_add x 1; cell_is self i cellState)
   &&& (i ← usize_add x 2; cell_is self i cellState))%run.

(** The two diagonal tests written inline in [changeState]. *)
Definition checkDiagonal08 (self : t) (cellState : BoardCell) : Run bool :=
  (cell_is self 0 cellState &&& cell_is self 4 cellState
   &&& cell_is self 8 cellState)%run.

Definition checkDiagonal26 (self : t) (cellState : BoardCell) : Run bool :=
  (cell_is self 2 cellState &&& cell_is self 4 cellState
   &&& cell_is self 6 cellState)%run.

(** The checks that follow the write in [changeState], in the order of the
    source: each [if .. { return Ok(End(cellState)) }] is one [if]. *)
Definition evaluate (self : t) (cellState : BoardCell) (x y : usize)
  : Run GameState :=
  v ← checkVertical self cellState x;
  if v : bool then mret (GameState.End cellState) else
  h ← checkHorizontal self cellState y;
  if h : bool then mret (GameState.End cellState) else
  d ← checkDiagonal08 self cellState;
  if d : bool then mret (GameState.End cellState) else
  d' ← checkDiagonal26 self cellState;
  if d' : bool then mret (GameState.End cellState) else
  if isFull self then mret (GameState.End BoardCell.None)
  else mret GameState.InProgress.

Definition changeState (self : t) (cellState : BoardCell) (xy : usize * usize)
  : Run (t * Result GameState BoardError) :=
  let '(x, y) := xy in
  if (3 <=? x)%N || (3 <=? y)%N then mret (self, Err BoardError.OutOfBounds)
  else
    m ← usize_mul 3 y;
    i ← usize_add x m;
    c ← index (cells self) i;
    match c with
    | BoardCell.None =>
        cells' ← index_set (cells self) i cellState;
        let self' := {| cells := cells' |} in
        g ← evaluate self' cellState x y;
        mret (self', Ok g)
    | _ => mret (self, Err BoardError.AlreadyChanged)
    end.

End methods.

(** [impl Display for TicTacToeBoard]: the nine cells in three rows,
    separated by [|], with a rule between the rows. *)
Definition fmt (self : t) : Run string :=
  c0 ← index (cells self) 0%N ≫= fmt;
  c1 ← index (cells self) 1%N ≫= fmt;
  c2 ← index (cells self) 2%N ≫= fmt;
  c3 ← index (cells self) 3%N ≫= fmt;
  c4 ← index (cells self) 4%N ≫= fmt;
  c5 ← index (cells self) 5%N ≫= fmt;
  c6 ← index (cells self) 6%N ≫= fmt;
  c7 ← index (cells self) 7%N ≫= fmt;
  c8 ← index (cells self) 8%N ≫= fmt;
  mret (c0 +:+ "|" +:+ c1 +:+ "|" +:+ c2 +:+ LF +:+ "-+-+-" +:+ LF +:+
        c3 +:+ "|" +:+ c4 +:+ "|" +:+ c5 +:+ LF +:+ "-+-+-" +:+ LF +:+
        c6 +:+ "|" +:+ c7 +:+ "|" +:+ c8 +:+ LF).

End TicTacToeBoard.

Abbreviation TicTacToeBoard := TicTacToeBoard.t.

Arguments TicTacToeBoard.cell_is self i%_N cellState.
Arguments TicTacToeBoard.checkVertical {_} self cellState x%_N.
Arguments TicTacToeBoard.checkHorizontal {_} self cellState y%_N.
Arguments TicTacToeBoard.evaluate {_} self cellState (x y)%_N.
Arguments TicTacToeBoard.changeState {_} self cellState xy%_N.

#[export] Instance TicTacToeBoard_Display : Display TicTacToeBoard :=
  TicTacToeBoard.fmt.

#[export] Instance TicTacToeBoard_eq_dec : EqDecision TicTacToeBoard.
Proof. solve_decision. Defined.

(** ** Well-formedness, lines and the reference verdict *)

(** The Rust type [[BoardCell; 9]]: nine cells. *)
Definition wf (b : TicTacToeBoard) : Prop :=
  length (TicTacToeBoard.cells b) = 9.

#[export] Instance wf_dec b : Decision (wf b).
Proof. unfold wf. apply _. Defined.

(** [place b i c]: the board [b] with cell [i] set to [c]. *)
Definition place (b : TicTacToeBoard) (i : nat) (c : BoardCell)
  : TicTacToeBoard :=
  {| TicTacToeBoard.cells := <[i := c]> (TicTacToeBoard.cells b) |}.

(** All cells of [b] at the positions [l] hold [c]. *)
Definition line_is (b : TicTacToeBoard) (c : BoardCell) (l : list nat) : bool :=
  forallb (λ i, bool_decide (TicTacToeBoard.cells b !! i = Some c)) l.

(** The positions of column [x], of row [y] and of the two diagonals, with
    position [x + 3 * y] for column [x] and row [y]. *)
Definition column (x : usize) : list nat :=
  [N.to_nat x; N.to_nat x + 3; N.to_nat x + 6].

Definition row (y : usize) : list nat :=
  [3 * N.to_nat y; 3 * N.to_nat y + 1; 3 * N.to_nat y + 2].

Arguments line_is : simpl never.

Definition diagonal08 : list nat := [0; 4; 8].
Definition diagonal26 : list nat := [2; 4; 6].

Definition position (x y : usize) : nat := N.to_nat x + 3 * N.to_nat y.

Arguments column x%_N.
Arguments row y%_N.
Arguments position (x y)%_N.

(** What [changeState] reports once the mark is on the board. *)
Definition verdict (b : TicTacToeBoard) (c : BoardCell) (x y : usize)
  : GameState :=
  if line_is b c (column x) || line_is b c (row y)
     || line_is b c diagonal08 || line_is b c diagonal26
  then GameState.End c
  else if forallb is_mark (TicTacToeBoard.cells b)
  then GameState.End BoardCell.None
  else GameState.InProgress.

Section board_lemmas.
Context `{Target}.
Implicit Types (b : TicTacToeBoard) (c : BoardCell) (x y : usize).

Lemma default_wf : wf TicTacToeBoard.default.
Proof. reflexivity. Qed.

Lemma place_wf b (i : nat) c : wf b → wf (place b i c).
Proof. unfold wf, place; simpl. by rewrite length_insert. Qed.

Lemma place_lookup b (i j : nat) c :
  i < length (TicTacToeBoard.cells b) →
  TicTacToeBoard.cells (place b i c) !! j =
    if decide (i = j) then Some c else TicTacToeBoard.cells b !! j.
Proof.
  intros. unfold place; simpl. case_decide as Hij.
  - subst. by apply list_lookup_insert_eq.
  - by apply list_lookup_insert_ne.
Qed.

(** The loop of [isFull] computes "every cell holds a mark". *)
Lemma isFull_loop_forallb (l : list BoardCell) (flag : bool) :
  TicTacToeBoard.isFull_loop l flag = forallb is_mark l && flag.
Proof.
  induction l as [|c l IH]; simpl; [done|].
  unfold is_mark at 1. destruct (BoardCell.eq c BoardCell.None); simpl; auto.
Qed.

Lemma isFull_forallb b :
  TicTacToeBoard.isFull b = forallb is_mark (TicTacToeBoard.cells b).
Proof.
  unfold TicTacToeBoard.isFull. rewrite isFull_loop_forallb. apply andb_true_r.
Qed.

Lemma cell_is_wf b (i : usize) c :
  wf b → (i < 9)%N →
  TicTacToeBoard.cell_is b i c =
    Return (bool_decide (TicTacToeBoard.cells b !! N.to_nat i = Some c)).
Proof.
  intros Hwf Hi. unfold TicTacToeBoard.cell_is.
  destruct (index_lt (TicTacToeBoard.cells b) i) as [a Ha]; [rewrite Hwf; lia|].
  rewrite Ha; simpl. apply index_returns in Ha. rewrite Ha, BoardCell_eq_spec.
  f_equal. apply bool_decide_ext. naive_solver.
Qed.

Lemma checkVertical_wf b c x :
  wf b → (x < 3)%N →
  TicTacToeBoard.checkVertical b c x = Return (line_is b c (column x)).
Proof.
  intros Hwf Hx. unfold TicTacToeBoard.checkVertical.
  rewrite !usize_add_small by lia; simpl.
  rewrite !cell_is_wf by (done || lia). rewrite !and_then_Return.
  unfold line_is, column; simpl. rewrite !N2Nat.inj_add, andb_true_r, andb_assoc.
  done.
Qed.

Lemma checkHorizontal_wf b c y :
  wf b → (y < 3)%N →
  TicTacToeBoard.checkHorizontal b c y = Return (line_is b c (row y)).
Proof.
  intros Hwf Hy. unfold TicTacToeBoard.checkHorizontal.
  rewrite usize_mul_small by lia; simpl.
  rewrite !usize_add_small by lia; simpl.
  rewrite !cell_is_wf by (done || lia). rewrite !and_then_Return.
  unfold line_is, row; simpl.
  rewrite !N2Nat.inj_add, N2Nat.inj_mul, andb_true_r, andb_assoc.
  done.
Qed.

Lemma checkDiagonal08_wf b c :
  wf b → TicTacToeBoard.checkDiagonal08 b c = Return (line_is b c diagonal08).
Proof.
  intros Hwf. unfold TicTacToeBoard.checkDiagonal08.
  rewrite !cell_is_wf by (done || lia). rewrite !and_then_Return.
  unfold line_is; simpl. by rewrite andb_true_r, andb_assoc.
Qed.

Lemma checkDiagonal26_wf b c :
  wf b → TicTacToeBoard.checkDiagonal26 b c = Return (line_is b c diagonal26).
Proof.
  intros Hwf. unfold TicTacToeBoard.checkDiagonal26.
  rewrite !cell_is_wf by (done || lia). rewrite !and_then_Return.
  unfold line_is; simpl. by rewrite andb_true_r, andb_assoc.
Qed.

Lemma evaluate_wf b c x y :
  wf b → (x < 3)%N → (y < 3)%N →
  TicTacToeBoard.evaluate b c x y = Return (verdict b c x y).
Proof.
  intros Hwf Hx Hy. unfold TicTacToeBoard.evaluate, verdict.
  rewrite checkVertical_wf, checkHorizontal_wf, checkDiagonal08_wf,
    checkDiagonal26_wf, isFull_forallb by done; simpl.
  repeat (destruct (line_is _ _ _); simpl; [done|]).
  by destruct (forallb _ _).
Qed.

(** The position addressed by in-range coordinates, as [changeState]
    computes it: neither the product nor the sum overflows. *)
Lemma position_wf x y :
  (x < 3)%N → (y < 3)%N →
  (m ← usize_mul 3 y; usize_add x m) = Return (N.of_nat (position x y)).
Proof.
  intros Hx Hy. rewrite usize_mul_small by lia; simpl.
  rewrite usize_add_small by lia. f_equal. unfold position. lia.
Qed.

Lemma position_lt x y : (x < 3)%N → (y < 3)%N → position x y < 9.
Proof. unfold position. lia. Qed.

Lemma changeState_unfold b c x y :
  (x < 3)%N → (y < 3)%N →
  TicTacToeBoard.changeState b c (x, y) =
    match TicTacToeBoard.cells b !! position x y with
    | Some BoardCell.None =>
        let b' := place b (position x y) c in
        g ← TicTacToeBoard.evaluate b' c x y; mret (b', Ok g)
    | Some _ => mret (b, Err BoardError.AlreadyChanged)
    | None => Panic IndexOutOfBounds
    end.
Proof.
  intros Hx Hy. unfold TicTacToeBoard.changeState.
  assert ((3 <=? x)%N || (3 <=? y)%N = false) as ->.
  { apply orb_false_iff; split; apply N.leb_gt; lia. }
  rewrite <-bind_assoc, position_wf by done; simpl.
  unfold index, index_set. rewrite Nat2N.id.
  destruct (_ !! _) as [[]|] eqn:Hc; simpl; try done.
  apply lookup_lt_Some in Hc. by case_decide.
Qed.

End board_lemmas.

(** ** [changeState] against its loop-free, panic-free reference *)

(** What [changeState] does to a well-formed board, without the machinery
    of [usize] and of bounds-checked indexing. *)
Definition changeState_ref (b : TicTacToeBoard) (c : BoardCell) (x y : usize)
  : TicTacToeBoard * Result GameState BoardError :=
  if (3 <=? x)%N || (3 <=? y)%N then (b, Err BoardError.OutOfBounds)
  else match TicTacToeBoard.cells b !! position x y with
       | Some BoardCell.None =>
           let b' := place b (position x y) c in (b', Ok (verdict b' c x y))
       | _ => (b, Err BoardError.AlreadyChanged)
       end.

(** The number of cells that hold a mark. *)
Definition count_marks (b : TicTacToeBoard) : nat :=
  length (filter (λ c, is_mark c = true) (TicTacToeBoard.cells b)).

Section changeState_lemmas.
Context `{Target}.
Implicit Types (b : TicTacToeBoard) (c : BoardCell) (x y : usize).

Lemma out_of_range_guard x y :
  (3 <=? x)%N || (3 <=? y)%N = true ↔ (3 ≤ x ∨ 3 ≤ y)%N.
Proof. rewrite orb_true_iff, !N.leb_le. done. Qed.

Lemma in_range_guard x y :
  (3 <=? x)%N || (3 <=? y)%N = false ↔ (x < 3 ∧ y < 3)%N.
Proof. rewrite orb_false_iff, !N.leb_gt. done. Qed.

Lemma changeState_guard b c x y :
  (3 ≤ x ∨ 3 ≤ y)%N →
  TicTacToeBoard.changeState b c (x, y) = Return (b, Err BoardError.OutOfBounds).
Proof.
  intros Hxy%out_of_range_guard. unfold TicTacToeBoard.changeState.
  by rewrite Hxy.
Qed.

Lemma changeState_ref_eq b c x y :
  wf b →
  TicTacToeBoard.changeState b c (x, y) = Return (changeState_ref b c x y).
Proof.
  intros Hwf. unfold changeState_ref.
  destruct ((3 <=? x)%N || (3 <=? y)%N) eqn:Hg.
  { by apply changeState_guard, out_of_range_guard. }
  apply in_range_guard in Hg as [Hx Hy]. rewrite changeState_unfold by done.
  destruct (lookup_lt_is_Some_2 (TicTacToeBoard.cells b) (position x y))
    as [c0 Hc0]; [rewrite Hwf; by apply position_lt|].
  rewrite Hc0. destruct c0; try done; simpl.
  by rewrite evaluate_wf by auto using place_wf.
Qed.

(** Inversion of a call that returned, with no assumption on the board. *)
Lemma changeState_inv b c x y b' r :
  TicTacToeBoard.changeState b c (x, y) = Return (b', r) →
  (b' = b ∧ r = Err BoardError.OutOfBounds ∧ (3 ≤ x ∨ 3 ≤ y)%N) ∨
  ((x < 3)%N ∧ (y < 3)%N ∧
   ∃ c0, TicTacToeBoard.cells b !! position x y = Some c0 ∧
     ((c0 ≠ BoardCell.None ∧ b' = b ∧ r = Err BoardError.AlreadyChanged) ∨
      (c0 = BoardCell.None ∧ b' = place b (position x y) c ∧
       ∃ g, r = Ok g ∧ TicTacToeBoard.evaluate b' c x y = Return g))).
Proof.
  destruct ((3 <=? x)%N || (3 <=? y)%N) eqn:Hg.
  - apply out_of_range_guard in Hg. rewrite changeState_guard by done.
    intros [= <- <-]. by left.
  - apply in_range_guard in Hg as [Hx Hy]. rewrite changeState_unfold by done.
    intros Hret. right. split_and!; [done..|].
    destruct (_ !! _) as [c0|]; [exists c0; split; [done|]|done].
    destruct c0; simpl in Hret; first [left; by inverts Hret | right].
    apply bind_returns in Hret as (g & Hg & [= <- <-]). eauto.
Qed.

Lemma count_marks_place b (i : nat) c :
  TicTacToeBoard.cells b !! i = Some BoardCell.None → is_mark c = true →
  count_marks (place b i c) = S (count_marks b).
Proof.
  unfold count_marks, place; simpl. generalize (TicTacToeBoard.cells b).
  intros l. revert i. induction l as [|a l IH]; intros [|i] Hi Hc;
    simplify_eq/=.
  - rewrite filter_cons_True by done. by rewrite filter_cons_False by done.
  - destruct (decide (is_mark a = true)).
    + rewrite !filter_cons_True by done; simpl. f_equal. by apply IH.
    + rewrite !filter_cons_False by done. by apply IH.
Qed.

Lemma count_marks_le b : count_marks b ≤ length (TicTacToeBoard.cells b).
Proof. apply length_filter. Qed.

End changeState_lemmas.

Section changeState_inversion.
Context `{Target}.
Implicit Types (b : TicTacToeBoard) (c : BoardCell) (x y : usize).

Lemma changeState_Ok_inv b c x y b' g :
  TicTacToeBoard.changeState b c (x, y) = Return (b', Ok g) →
  (x < 3)%N ∧ (y < 3)%N ∧
  TicTacToeBoard.cells b !! position x y = Some BoardCell.None ∧
  b' = place b (position x y) c ∧
  TicTacToeBoard.evaluate b' c x y = Return g.
Proof.
  intros [(_ & [=] & _) | (Hx & Hy & c0 & Hc0 & Hcase)]%changeState_inv.
  destruct Hcase as [(_ & _ & [=]) | (-> & -> & g' & [= <-] & Hg)]. done.
Qed.

Lemma changeState_Err_inv b c x y b' e :
  TicTacToeBoard.changeState b c (x, y) = Return (b', Err e) → b' = b.
Proof.
  intros [(-> & _) | (_ & _ & c0 & _ & Hcase)]%changeState_inv; [done|].
  by destruct Hcase as [(_ & -> & _) | (_ & _ & g & [=] & _)].
Qed.

Lemma place_lookup_eq b (i : nat) c c0 :
  TicTacToeBoard.cells b !! i = Some c0 →
  TicTacToeBoard.cells (place b i c) !! i = Some c.
Proof.
  intros Hi%lookup_lt_Some. rewrite place_lookup by done. by case_decide.
Qed.

Lemma place_lookup_ne b (i j : nat) c :
  i ≠ j →
  TicTacToeBoard.cells (place b i c) !! j = TicTacToeBoard.cells b !! j.
Proof. intros. by apply list_lookup_insert_ne. Qed.

End changeState_inversion.

(** ** The behaviour of [changeState], branch by branch *)

Section changeState_theorems.
Context `{Target}.
Implicit Types (b : TicTacToeBoard) (c : BoardCell) (x y : usize).

(** C12: [changeState] answers [Err(OutOfBounds)] and hands the board back
    unchanged exactly when a coordinate is 3 or more, whatever the board
    holds; no cell is read before the test. *)
Theorem changeState_out_of_bounds b c x y :
  TicTacToeBoard.changeState b c (x, y) = Return (b, Err BoardError.OutOfBounds)
  ↔ (3 ≤ x ∨ 3 ≤ y)%N.
Proof.
  split; [|apply changeState_guard].
  intros [(_ & _ & Hxy) | (_ & _ & c0 & _ & Hcase)]%changeState_inv; [done|].
  by destruct Hcase as [(_ & _ & [=]) | (_ & _ & g & [=] & _)].
Qed.

(** C14: a move on a cell that already holds a mark, the player's own or
    the opponent's, is refused with [Err(AlreadyChanged)] and the board is
    unchanged. *)
Theorem changeState_occupied b c x y c0 :
  (x < 3)%N → (y < 3)%N →
  TicTacToeBoard.cells b !! position x y = Some c0 → c0 ≠ BoardCell.None →
  TicTacToeBoard.changeState b c (x, y)
  = Return (b, Err BoardError.AlreadyChanged).
Proof.
  intros Hx Hy Hc0 Hne. rewrite changeState_unfold, Hc0 by done.
  by destruct c0.
Qed.

(** C2: a move on an empty cell of a well-formed board succeeds: the
    addressed cell, and no other, receives the mark, and the state returned
    is [End(mark)] when the mark fills its column, its row or a diagonal,
    else [End(None)] when no cell is left empty, else [InProgress]. *)
Theorem changeState_places b c x y :
  wf b → (x < 3)%N → (y < 3)%N →
  TicTacToeBoard.cells b !! position x y = Some BoardCell.None →
  TicTacToeBoard.changeState b c (x, y)
  = Return (place b (position x y) c,
            Ok (verdict (place b (position x y) c) c x y)).
Proof.
  intros Hwf Hx Hy Hc0. rewrite changeState_ref_eq by done.
  unfold changeState_ref.
  rewrite (proj2 (in_range_guard x y)), Hc0 by done. done.
Qed.

(** C3: on a board of nine cells [changeState] never panics, whatever the
    mark and the coordinates: no index leaves the array and no [usize]
    operation overflows. *)
Theorem changeState_no_panic b c xy :
  wf b → no_panic (TicTacToeBoard.changeState b c xy) = true.
Proof.
  intros Hwf. destruct xy as [x y]. apply no_panic_Return.
  eexists. by apply changeState_ref_eq.
Qed.

(** C18: a refused move changes nothing: whenever [changeState] returns an
    error, the board after the call is the board before it. *)
Theorem changeState_Err_unchanged b c xy b' e :
  TicTacToeBoard.changeState b c xy = Return (b', Err e) → b' = b.
Proof. destruct xy as [x y]. apply changeState_Err_inv. Qed.

(** C17: an accepted move changes exactly one cell: the cell addressed was
    [None] before and holds the mark after, and every other cell is as it
    was. *)
Theorem changeState_Ok_one_cell b c x y b' g :
  TicTacToeBoard.changeState b c (x, y) = Return (b', Ok g) →
  TicTacToeBoard.cells b !! position x y = Some BoardCell.None ∧
  TicTacToeBoard.cells b' !! position x y = Some c ∧
  ∀ j, j ≠ position x y →
       TicTacToeBoard.cells b' !! j = TicTacToeBoard.cells b !! j.
Proof.
  intros (_ & _ & Hc0 & -> & _)%changeState_Ok_inv. split_and!; [done|..].
  - by eapply place_lookup_eq.
  - intros j Hj. by apply place_lookup_ne.
Qed.

(** C34: playing twice on the same coordinate: once a mark of a player has
    been accepted there, a second call on that coordinate, by either
    player, is refused with [Err(AlreadyChanged)] and leaves the board as
    the first call left it. *)
Theorem changeState_twice b c c2 xy b' g :
  is_mark c = true →
  TicTacToeBoard.changeState b c xy = Return (b', Ok g) →
  TicTacToeBoard.changeState b' c2 xy
  = Return (b', Err BoardError.AlreadyChanged).
Proof.
  intros Hc Hret. destruct xy as [x y].
  apply changeState_Ok_inv in Hret as (Hx & Hy & Hc0 & -> & _).
  rewrite changeState_unfold by done. erewrite place_lookup_eq by done.
  by destruct c.
Qed.

(** C35: a cell that holds a mark keeps it: no call of [changeState],
    accepted or refused, empties or overwrites a marked cell. *)
Theorem changeState_keeps_marks b c xy b' r (j : nat) m :
  TicTacToeBoard.cells b !! j = Some m → m ≠ BoardCell.None →
  TicTacToeBoard.changeState b c xy = Return (b', r) →
  TicTacToeBoard.cells b' !! j = Some m.
Proof.
  intros Hj Hm Hret. destruct xy as [x y], r as [g|e].
  - apply changeState_Ok_inv in Hret as (_ & _ & Hc0 & -> & _).
    rewrite place_lookup_ne; [done|]. intros <-. congruence.
  - by apply changeState_Err_inv in Hret as ->.
Qed.

(** C36: every accepted move of a player's mark raises the number of
    marked cells by one, and that number never exceeds the nine cells of
    the board. *)
Theorem changeState_count_marks b c xy b' g :
  wf b → is_mark c = true →
  TicTacToeBoard.changeState b c xy = Return (b', Ok g) →
  count_marks b' = S (count_marks b) ∧ count_marks b' ≤ 9.
Proof.
  intros Hwf Hc Hret. destruct xy as [x y].
  apply changeState_Ok_inv in Hret as (_ & _ & Hc0 & -> & _). split.
  - by apply count_marks_place.
  - rewrite <-(place_wf b (position x y) c Hwf). apply count_marks_le.
Qed.

(** C39: [isFull] answers [true] exactly when no cell is [None]: the loop
    with its flag and its [break] is the test "the board has no empty
    cell". *)
Theorem isFull_spec b :
  TicTacToeBoard.isFull b = true ↔ BoardCell.None ∉ TicTacToeBoard.cells b.
Proof.
  rewrite isFull_forallb, forallb_forall. split.
  - intros Hall Hin%list_elem_of_In. by apply Hall in Hin.
  - intros Hnin c Hc%list_elem_of_In. apply is_mark_true. by intros ->.
Qed.

End changeState_theorems.

(** ** The theorems at concrete boards

    [after_X00] is the board after the first player marked the top-left
    cell; [almost_full] has one empty cell left, the bottom-right one, and no
    line of three. *)

Definition after_X00 : TicTacToeBoard :=
  place TicTacToeBoard.default 0 BoardCell.X.

Definition almost_full : TicTacToeBoard :=
  {| TicTacToeBoard.cells :=
       [BoardCell.X; BoardCell.O; BoardCell.X;
        BoardCell.X; BoardCell.O; BoardCell.O;
        BoardCell.O; BoardCell.X; BoardCell.None] |}.

Lemma changeState_occupied_witness :
  @TicTacToeBoard.changeState target64 after_X00 BoardCell.O (0, 0)%N
  = Return (after_X00, Err BoardError.AlreadyChanged).
Proof.
  apply (@changeState_occupied target64 after_X00 BoardCell.O 0%N 0%N
           BoardCell.X);
    [lia | lia | reflexivity | discriminate].
Defined.

Lemma changeState_places_witness :
  @TicTacToeBoard.changeState target64 almost_full BoardCell.X (2, 2)%N
  = Return (place almost_full 8 BoardCell.X, Ok (GameState.End BoardCell.None)).
Proof.
  apply (@changeState_places target64 almost_full BoardCell.X 2%N 2%N);
    [reflexivity | lia | lia | reflexivity].
Defined.

Lemma changeState_no_panic_witness :
  no_panic (@TicTacToeBoard.changeState target64 after_X00 BoardCell.O (7, 1)%N)
  = true.
Proof.
  apply (@changeState_no_panic target64 after_X00 BoardCell.O (7, 1)%N).
  reflexivity.
Defined.

Lemma changeState_Err_unchanged_witness : after_X00 = after_X00.
Proof.
  apply (@changeState_Err_unchanged target64 after_X00 BoardCell.O (0, 0)%N
           after_X00 BoardError.AlreadyChanged).
  reflexivity.
Defined.

Lemma changeState_Ok_one_cell_witness :
  TicTacToeBoard.cells after_X00 !! 4 = Some BoardCell.None ∧
  TicTacToeBoard.cells (place after_X00 4 BoardCell.O) !! 4 = Some BoardCell.O ∧
  ∀ j, j ≠ 4 →
       TicTacToeBoard.cells (place after_X00 4 BoardCell.O) !! j
       = TicTacToeBoard.cells after_X00 !! j.
Proof.
  apply (@changeState_Ok_one_cell target64 after_X00 BoardCell.O 1%N 1%N
           (place after_X00 4 BoardCell.O) GameState.InProgress).
  reflexivity.
Defined.

Lemma changeState_twice_witness :
  @TicTacToeBoard.changeState target64 after_X00 BoardCell.O (0, 0)%N
  = Return (after_X00, Err BoardError.AlreadyChanged).
Proof.
  apply (@changeState_twice target64 TicTacToeBoard.default BoardCell.X
           BoardCell.O (0, 0)%N after_X00 GameState.InProgress);
    reflexivity.
Defined.

Lemma changeState_keeps_marks_witness :
  TicTacToeBoard.cells (place after_X00 4 BoardCell.O) !! 0 = Some BoardCell.X.
Proof.
  apply (@changeState_keeps_marks target64 after_X00 BoardCell.O (1, 1)%N
           (place after_X00 4 BoardCell.O) (Ok GameState.InProgress)
           0 BoardCell.X); [reflexivity | discriminate | reflexivity].
Defined.

Lemma changeState_count_marks_witness :
  count_marks (place after_X00 4 BoardCell.O) = S (count_marks after_X00) ∧
  count_marks (place after_X00 4 BoardCell.O) ≤ 9.
Proof.
  apply (@changeState_count_marks target64 after_X00 BoardCell.O (1, 1)%N
           (place after_X00 4 BoardCell.O) GameState.InProgress);
    reflexivity.
Defined.
