(* ===== verification/Rules.v ===== *)
(** * Rules: the rules of tic-tac-toe and the refinement of [changeState]

    This file states what the game is, without reference to how the program
    computes it, and proves that the program implements it.

    - The rules: the eight [lines] of the grid; a mark [wins] on a board when
      it fills one of them; a board is [full] when no cell is empty; the
      [outcome] of a position for the player who just moved.
    - [changeState] looks at four lines only: the column and the row of the
      move and the two diagonals.  [changeState_refines_rules] shows that
      this is enough: when the mover had no line before the move, the state
      returned is the [outcome] by the rules.
    - The game as a transition system: [play] is the step the program takes
      when [changeState] accepts a move (the mark of the player to move is
      placed, the state returned is recorded, the turn passes); [move] is
      the step by the rules.  [play_move] and [move_play] show that they
      coincide on the positions reachable from the initial one, and the
      invariant [game_inv] of reachable positions gives the properties of
      the game: the players alternate, a won game has exactly one winner,
      a draw is a full board with no line, a game in progress has an empty
      cell, and no game has more than nine moves. *)

From stdpp Require Import base decidable list sets numbers relations.
From S2P Require Import Prelude Cell Board.

(** ** The rules *)

Definition columns : list (list nat) := [[0; 3; 6]; [1; 4; 7]; [2; 5; 8]].
Definition rows : list (list nat) := [[0; 1; 2]; [3; 4; 5]; [6; 7; 8]].
Definition diagonals : list (list nat) := [[0; 4; 8]; [2; 4; 6]].

Definition lines : list (list nat) := columns ++ rows ++ diagonals.

(** The mark [c] fills a line of [b]. *)
Definition wins (b : TicTacToeBoard) (c : BoardCell) : bool :=
  existsb (line_is b c) lines.

(** No cell of [b] is empty. *)
Definition full (b : TicTacToeBoard) : bool :=
  forallb is_mark (TicTacToeBoard.cells b).

(** The state of the game after [c] moved to reach [b]. *)
Definition outcome (b : TicTacToeBoard) (c : BoardCell) : GameState :=
  if wins b c then GameState.End c
  else if full b then GameState.End BoardCell.None
  else GameState.InProgress.

(** The lines [changeState] examines after a move at column [x], row [y]. *)
Definition checked_lines (x y : usize) : list (list nat) :=
  [column x; row y; diagonal08; diagonal26].

Arguments wins : simpl never.
Arguments full : simpl never.

Section rules_lemmas.
Implicit Types (b : TicTacToeBoard) (c m : BoardCell) (x y : usize)
  (l : list nat) (i : nat).

Lemma line_is_true b c l :
  line_is b c l = true ↔ ∀ i, i ∈ l → TicTacToeBoard.cells b !! i = Some c.
Proof.
  unfold line_is. rewrite forallb_forall. setoid_rewrite bool_decide_eq_true.
  by setoid_rewrite list_elem_of_In.
Qed.

Lemma wins_true b c :
  wins b c = true ↔ ∃ l, l ∈ lines ∧ line_is b c l = true.
Proof.
  unfold wins. rewrite existsb_exists. by setoid_rewrite list_elem_of_In.
Qed.

Lemma wins_false b c :
  wins b c = false ↔ ∀ l, l ∈ lines → line_is b c l = false.
Proof.
  rewrite <-not_true_iff_false, wins_true. split.
  - intros Hno l Hl. apply not_true_iff_false. eauto.
  - intros Hall (l & Hl & Hline). apply Hall in Hl. congruence.
Qed.

(** A move changes only the lines through the cell it marks. *)
Lemma line_is_place_notin b i c m l :
  i ∉ l → line_is (place b i c) m l = line_is b m l.
Proof.
  intros Hi. apply eq_true_iff_eq. rewrite !line_is_true.
  assert (∀ j, j ∈ l → TicTacToeBoard.cells (place b i c) !! j
                       = TicTacToeBoard.cells b !! j) as Heq.
  { intros j Hj. apply place_lookup_ne. by intros ->. }
  split; intros Hall j Hj; [rewrite <-Heq | rewrite Heq]; auto.
Qed.

(** A line through a cell marked [c] is not a line of another mark. *)
Lemma line_is_place_in b i c m l :
  i < length (TicTacToeBoard.cells b) → i ∈ l → m ≠ c →
  line_is (place b i c) m l = false.
Proof.
  intros Hlt Hi Hm. apply not_true_iff_false. rewrite line_is_true.
  intros Hall. apply Hall in Hi. rewrite place_lookup in Hi by done.
  case_decide; congruence.
Qed.

(** The lines through the cell at column [x] and row [y] are among those
    [changeState] examines, and all it examines are lines of the grid. *)
Lemma lines_through_position x y l :
  (x < 3)%N → (y < 3)%N → l ∈ lines → position x y ∈ l →
  l ∈ checked_lines x y.
Proof.
  intros Hx Hy Hl Hpos.
  assert (forallb (λ l, implb (bool_decide (position x y ∈ l))
                              (bool_decide (l ∈ checked_lines x y))) lines
          = true) as Hall by (case_lt3 x; case_lt3 y; by vm_compute).
  rewrite forallb_forall in Hall. apply list_elem_of_In, Hall in Hl.
  rewrite bool_decide_eq_true_2 in Hl by done. by apply bool_decide_eq_true in Hl.
Qed.

Lemma checked_lines_lines x y l :
  (x < 3)%N → (y < 3)%N → l ∈ checked_lines x y → l ∈ lines.
Proof.
  intros Hx Hy Hl.
  assert (forallb (λ l, bool_decide (l ∈ lines)) (checked_lines x y) = true)
    as Hall by (case_lt3 x; case_lt3 y; by vm_compute).
  rewrite forallb_forall in Hall. apply list_elem_of_In, Hall in Hl.
  by apply bool_decide_eq_true in Hl.
Qed.

Lemma verdict_checked_lines b c x y :
  verdict b c x y =
    if existsb (line_is b c) (checked_lines x y) then GameState.End c
    else if full b then GameState.End BoardCell.None
    else GameState.InProgress.
Proof. unfold verdict, checked_lines; simpl. by rewrite orb_false_r, !orb_assoc. Qed.

(** The four lines examined decide the game, provided the mover had no
    line before the move. *)
Lemma wins_place_checked b c x y :
  (x < 3)%N → (y < 3)%N → wins b c = false →
  wins (place b (position x y) c) c
  = existsb (line_is (place b (position x y) c) c) (checked_lines x y).
Proof.
  intros Hx Hy Hno. apply eq_true_iff_eq.
  rewrite wins_true, existsb_exists. setoid_rewrite <-list_elem_of_In.
  split; intros (l & Hl & Hline); exists l; (split; [|done]).
  - destruct (decide (position x y ∈ l)) as [Hin|Hnin].
    + by apply lines_through_position.
    + rewrite line_is_place_notin in Hline by done.
      rewrite wins_false in Hno. apply Hno in Hl. congruence.
  - by apply (checked_lines_lines x y).
Qed.

Lemma verdict_outcome b c x y :
  (x < 3)%N → (y < 3)%N → wins b c = false →
  verdict (place b (position x y) c) c x y
  = outcome (place b (position x y) c) c.
Proof.
  intros Hx Hy Hno. rewrite verdict_checked_lines. unfold outcome.
  by rewrite wins_place_checked.
Qed.

End rules_lemmas.

(** ** The game as a transition system *)

(** The player who moves after [c]. *)
Definition opponent (c : BoardCell) : BoardCell :=
  match c with
  | BoardCell.X => BoardCell.O
  | BoardCell.O => BoardCell.X
  | BoardCell.None => BoardCell.None
  end.

(** The three variables of [main] that a move changes. *)
Record Game : Type := {
  board : TicTacToeBoard;
  playerState : BoardCell;
  gameState : GameState;
}.

(** [main] before the first turn: an empty board, [X] to move. *)
Definition initial : Game :=
  {| board := TicTacToeBoard.default;
     playerState := BoardCell.X;
     gameState := GameState.InProgress |}.

(** The [match playerState] that ends an accepted turn of [main]: the turn
    passes; a [playerState] of [None] is [unreachable!()]. *)
Definition switch_player (playerState : BoardCell) : Run BoardCell :=
  match playerState with
  | BoardCell.X => mret BoardCell.O
  | BoardCell.O => mret BoardCell.X
  | BoardCell.None => Panic Unreachable
  end.

(** A step of the game by the rules: while the game is in progress, the
    player to move marks an empty cell; the state becomes the [outcome] of
    the new board, and the turn passes. *)
Inductive move : Game → Game → Prop :=
| move_mark g x y :
    gameState g = GameState.InProgress →
    (x < 3)%N → (y < 3)%N →
    TicTacToeBoard.cells (board g) !! position x y = Some BoardCell.None →
    move g {| board := place (board g) (position x y) (playerState g);
              playerState := opponent (playerState g);
              gameState :=
                outcome (place (board g) (position x y) (playerState g))
                        (playerState g) |}.

(** The state of a game read off its board. *)
Definition status (b : TicTacToeBoard) : GameState :=
  if wins b BoardCell.X then GameState.End BoardCell.X
  else if wins b BoardCell.O then GameState.End BoardCell.O
  else if full b then GameState.End BoardCell.None
  else GameState.InProgress.

(** The number of cells of [b] that hold [c]. *)
Definition count_of (c : BoardCell) (b : TicTacToeBoard) : nat :=
  length (filter (λ c', c' = c) (TicTacToeBoard.cells b)).

(** What holds of every position of a game: the board has nine cells, a
    player is to move, [X] has moved as often as [O] or once more and the
    turn says which, [gameState] is the [status] of the board, and at most
    one player has a line. *)
Record game_inv (g : Game) : Prop := {
  inv_wf : wf (board g);
  inv_player : is_mark (playerState g) = true;
  inv_count :
    count_of BoardCell.X (board g)
    = count_of BoardCell.O (board g)
      + (if decide (playerState g = BoardCell.O) then 1 else 0);
  inv_status : gameState g = status (board g);
  inv_one_winner : wins (board g) BoardCell.X && wins (board g) BoardCell.O = false;
}.

Section play.
Context `{Target}.

(** A step of the game by the program: an iteration of the loop of [main]
    in which [changeState] accepted the move. *)
Inductive play : Game → Game → Prop :=
| play_accept g xy b' s p' :
    gameState g = GameState.InProgress →
    TicTacToeBoard.changeState (board g) (playerState g) xy = Return (b', Ok s) →
    switch_player (playerState g) = Return p' →
    play g {| board := b'; playerState := p'; gameState := s |}.

End play.

Section game_lemmas.
Implicit Types (b : TicTacToeBoard) (c m : BoardCell) (g : Game) (i : nat).

Lemma opponent_is_mark c : is_mark c = true → is_mark (opponent c) = true.
Proof. by destruct c. Qed.

Lemma opponent_ne c : is_mark c = true → opponent c ≠ c.
Proof. by destruct c. Qed.

Lemma opponent_involutive c : opponent (opponent c) = c.
Proof. by destruct c. Qed.

Lemma switch_player_mark c :
  is_mark c = true → switch_player c = Return (opponent c).
Proof. by destruct c. Qed.

Lemma switch_player_returns c p :
  switch_player c = Return p → is_mark c = true ∧ p = opponent c.
Proof. destruct c; intros [= <-]; done. Qed.

Lemma count_of_place b i c m :
  m ≠ BoardCell.None →
  TicTacToeBoard.cells b !! i = Some BoardCell.None →
  count_of m (place b i c) = count_of m b + (if decide (c = m) then 1 else 0).
Proof.
  intros Hm. unfold count_of, place; simpl.
  generalize (TicTacToeBoard.cells b). intros l. revert i.
  induction l as [|a l IH]; intros [|i] Hi; simplify_eq/=.
  - rewrite (filter_cons_False _ BoardCell.None) by done.
    case_decide; [rewrite filter_cons_True | rewrite filter_cons_False];
      simpl; done || lia.
  - specialize (IH _ Hi). destruct (decide (a = m)).
    + rewrite !filter_cons_True by done; simpl. lia.
    + by rewrite !filter_cons_False by done.
Qed.

Lemma wins_place_other b i c m :
  i < length (TicTacToeBoard.cells b) → m ≠ c →
  wins b m = false → wins (place b i c) m = false.
Proof.
  intros Hi Hm. rewrite !wins_false. intros Hno l Hl.
  destruct (decide (i ∈ l)).
  - by apply line_is_place_in.
  - rewrite line_is_place_notin by done. by apply Hno.
Qed.

Lemma status_InProgress b :
  status b = GameState.InProgress ↔
  wins b BoardCell.X = false ∧ wins b BoardCell.O = false ∧ full b = false.
Proof.
  unfold status.
  destruct (wins b BoardCell.X), (wins b BoardCell.O), (full b);
    split; first [done | by intros (? & ? & ?)].
Qed.

(** A board that is not full has an empty cell, at coordinates in range. *)
Lemma not_full_empty_cell b :
  wf b → full b = false →
  ∃ x y, (x < 3)%N ∧ (y < 3)%N ∧
         TicTacToeBoard.cells b !! position x y = Some BoardCell.None.
Proof.
  intros Hwf Hfull. apply forallb_false in Hfull as (i & c & Hi & Hc).
  assert (c = BoardCell.None) as -> by by destruct c.
  pose proof (lookup_lt_Some _ _ _ Hi) as Hlt. rewrite Hwf in Hlt.
  exists (N.of_nat (i mod 3)), (N.of_nat (i / 3)).
  pose proof (Nat.div_mod_eq i 3) as Hdiv.
  pose proof (Nat.mod_upper_bound i 3) as Hmod.
  assert (i / 3 < 3) by (apply Nat.Div0.div_lt_upper_bound; lia).
  replace (position _ _) with i
    by (unfold position; rewrite !Nat2N.id; lia).
  split_and!; [lia..|done].
Qed.

Lemma initial_inv : game_inv initial.
Proof. by split. Qed.

Lemma move_inv g g' : game_inv g → move g g' → game_inv g'.
Proof.
  intros [Hwf Hp Hcnt Hst Hone] Hmove.
  destruct Hmove as [g x y Hprog Hx Hy Hempty].
  rewrite Hprog in Hst. symmetry in Hst.
  apply status_InProgress in Hst as (HX & HO & _).
  pose proof (position_lt x y Hx Hy) as Hlt. rewrite <-Hwf in Hlt.
  assert (wins (place (board g) (position x y) (playerState g))
               (opponent (playerState g)) = false) as Hopp.
  { apply wins_place_other; [done|by apply opponent_ne|].
    by destruct (playerState g). }
  split; simpl.
  - by apply place_wf.
  - by apply opponent_is_mark.
  - rewrite !count_of_place by done.
    destruct (playerState g); simpl in *; repeat case_decide; done || lia.
  - unfold outcome, status.
    destruct (playerState g); simpl in *; try done; by rewrite Hopp.
  - destruct (playerState g); simpl in *; try done; rewrite Hopp;
      auto using andb_false_r.
Qed.

Lemma rtc_move_inv g : rtc move initial g → game_inv g.
Proof.
  apply (rtc_ind_r game_inv initial); [apply initial_inv|].
  intros g1 g2 _ Hstep IH. by eapply move_inv.
Qed.

End game_lemmas.

(** ** The program plays by the rules *)

Section refinement.
Context `{Target}.
Implicit Types (b : TicTacToeBoard) (c m : BoardCell) (g : Game)
  (x y : usize).

(** On a board where the mover has no line yet, [changeState] accepts a
    move on an empty cell and reports its [outcome]. *)
Lemma changeState_outcome b c x y :
  wf b → (x < 3)%N → (y < 3)%N →
  TicTacToeBoard.cells b !! position x y = Some BoardCell.None →
  wins b c = false →
  TicTacToeBoard.changeState b c (x, y)
  = Return (place b (position x y) c,
            Ok (outcome (place b (position x y) c) c)).
Proof.
  intros Hwf Hx Hy Hempty Hno. rewrite changeState_ref_eq by done.
  unfold changeState_ref.
  rewrite (proj2 (in_range_guard x y)), Hempty by done; simpl.
  by rewrite verdict_outcome.
Qed.

Lemma changeState_Ok_outcome b c x y b' s :
  wf b → wins b c = false →
  TicTacToeBoard.changeState b c (x, y) = Return (b', Ok s) →
  (x < 3)%N ∧ (y < 3)%N ∧
  TicTacToeBoard.cells b !! position x y = Some BoardCell.None ∧
  b' = place b (position x y) c ∧ s = outcome b' c.
Proof.
  intros Hwf Hno Hret.
  pose proof Hret as (Hx & Hy & Hempty & -> & _)%changeState_Ok_inv.
  rewrite changeState_outcome in Hret by done. by inverts Hret.
Qed.

Lemma game_inv_no_line g :
  game_inv g → gameState g = GameState.InProgress →
  wins (board g) (playerState g) = false ∧ full (board g) = false.
Proof.
  intros [_ Hp _ Hst _] Hprog. rewrite Hprog in Hst. symmetry in Hst.
  apply status_InProgress in Hst as (HX & HO & Hfull).
  by destruct (playerState g).
Qed.

Lemma play_move g g' : game_inv g → play g g' → move g g'.
Proof.
  intros Hinv Hplay. destruct Hplay as [g [x y] b' s p' Hprog Hret Hp'].
  destruct (game_inv_no_line g Hinv Hprog) as [Hno _].
  apply changeState_Ok_outcome in Hret as (Hx & Hy & Hempty & -> & ->);
    [|apply Hinv|done].
  apply switch_player_returns in Hp' as [_ ->]. by constructor.
Qed.

Lemma move_play g g' : game_inv g → move g g' → play g g'.
Proof.
  intros Hinv Hmove. destruct Hmove as [g x y Hprog Hx Hy Hempty].
  destruct (game_inv_no_line g Hinv Hprog) as [Hno _].
  apply (play_accept g (x, y)); [done| |].
  - apply changeState_outcome; [apply Hinv|done..].
  - apply switch_player_mark, Hinv.
Qed.

Lemma nsteps_play_move n g : nsteps play n initial g → nsteps move n initial g.
Proof.
  revert g. induction n as [|n IH]; intros g Hn.
  - inverts Hn. constructor.
  - apply nsteps_inv_r in Hn as (g1 & Hn & Hstep). specialize (IH _ Hn).
    eapply nsteps_r; [done|]. apply play_move; [|done].
    eapply rtc_move_inv, rtc_nsteps_2, IH.
Qed.

Lemma rtc_play_move g : rtc play initial g → rtc move initial g.
Proof.
  intros [n Hn]%rtc_nsteps. eapply rtc_nsteps_2, nsteps_play_move, Hn.
Qed.

Lemma rtc_play_inv g : rtc play initial g → game_inv g.
Proof. intros Hg. by apply rtc_move_inv, rtc_play_move. Qed.

Lemma nsteps_move_marks n g :
  nsteps move n initial g → count_marks (board g) = n.
Proof.
  revert g. induction n as [|n IH]; intros g Hn.
  - by inverts Hn.
  - apply nsteps_inv_r in Hn as (g1 & Hn & Hstep).
    pose proof (rtc_move_inv _ (rtc_nsteps_2 _ _ _ Hn)) as Hinv.
    specialize (IH _ Hn). destruct Hstep as [g1 x y Hprog Hx Hy Hempty]; simpl.
    rewrite count_marks_place, IH; [done..|apply Hinv].
Qed.

Lemma nsteps_play_le_9 n g : nsteps play n initial g → n ≤ 9.
Proof.
  intros Hn%nsteps_play_move.
  pose proof (rtc_move_inv _ (rtc_nsteps_2 _ _ _ Hn)) as Hinv.
  rewrite <-(nsteps_move_marks _ _ Hn), <-(inv_wf _ Hinv).
  apply count_marks_le.
Qed.

Lemma count_marks_full b :
  count_marks b = length (TicTacToeBoard.cells b) → full b = true.
Proof.
  intros Hcount. apply not_false_iff_true. intros (i & c & Hi & Hc)%forallb_false.
  apply list_elem_of_lookup_2 in Hi.
  eapply (length_filter_lt (λ c, is_mark c = true)) in Hi; [|by rewrite Hc].
  unfold count_marks in Hcount. lia.
Qed.

End refinement.

(** ** Running a game

    [step] is [play] as a function, [steps] a sequence of accepted moves;
    they evaluate, so a concrete game is a reachable position by
    computation. *)

Section steps.
Context `{Target}.
Implicit Types (g : Game) (xy : usize * usize).

Definition step (g : Game) (xy : usize * usize) : option Game :=
  match gameState g with
  | GameState.InProgress =>
      match TicTacToeBoard.changeState (board g) (playerState g) xy,
            switch_player (playerState g) with
      | Return (b', Ok s), Return p' =>
          Some {| board := b'; playerState := p'; gameState := s |}
      | _, _ => None
      end
  | GameState.End _ => None
  end.

Fixpoint steps (g : Game) (moves : list (usize * usize)) : option Game :=
  match moves with
  | [] => Some g
  | xy :: moves' => g' ← step g xy; steps g' moves'
  end.

Lemma step_play g xy g' : step g xy = Some g' → play g g'.
Proof.
  unfold step. destruct (gameState g) eqn:Hprog; [|done].
  destruct (TicTacToeBoard.changeState _ _ _) as [[b' [s|e]]|] eqn:Hret;
    try done.
  destruct (switch_player _) as [p'|] eqn:Hp'; [|done].
  intros [= <-]. by econstructor.
Qed.

Lemma play_step g g' : play g g' → ∃ xy, step g xy = Some g'.
Proof.
  intros [g1 xy b' s p' Hprog Hret Hp']. exists xy. unfold step.
  by rewrite Hprog, Hret, Hp'.
Qed.

Lemma steps_nsteps moves g g' :
  steps g moves = Some g' → nsteps play (length moves) g g'.
Proof.
  revert g. induction moves as [|xy moves IH]; intros g; simpl.
  - intros [= <-]. constructor.
  - destruct (step g xy) as [g1|] eqn:Hstep; [|done]; simpl.
    intros Hsteps. eapply nsteps_l; [by eapply step_play | by apply IH].
Qed.

Lemma steps_rtc moves g g' : steps g moves = Some g' → rtc play g g'.
Proof. intros Hsteps. eapply rtc_nsteps_2, steps_nsteps, Hsteps. Qed.

End steps.

(** ** Theorems *)

Section game_theorems.
Context `{Target}.
Implicit Types (b : TicTacToeBoard) (c m : BoardCell) (g : Game)
  (x y : usize).

(** C1: [changeState] implements the rules.  On a board of nine cells
    where the mover has no line yet, a call returns [Ok] exactly for
    in-range coordinates of an empty cell, the board returned is the board
    with that cell marked, and the state returned is the outcome by the
    rules over all eight lines: the mover wins if the mark fills any line,
    the game is drawn if the board is full, and it goes on otherwise.
    Examining the column, the row and the two diagonals is enough. *)
Theorem changeState_refines_rules b c x y b' s :
  wf b → wins b c = false →
  TicTacToeBoard.changeState b c (x, y) = Return (b', Ok s)
  ↔ ((x < 3)%N ∧ (y < 3)%N ∧
     TicTacToeBoard.cells b !! position x y = Some BoardCell.None ∧
     b' = place b (position x y) c ∧ s = outcome b' c).
Proof.
  intros Hwf Hno. split.
  - by apply changeState_Ok_outcome.
  - intros (Hx & Hy & Hempty & -> & ->). by apply changeState_outcome.
Qed.

(** C6: the loop of [main] plays the game of the rules: from every
    position reached by accepted moves, the steps the program can take are
    exactly the moves the rules allow, with the same board, the same next
    player and the same state of the game. *)
Theorem play_refines_move g g' :
  rtc play initial g → play g g' ↔ move g g'.
Proof.
  intros Hinv%rtc_play_inv. split; [by apply play_move | by apply move_play].
Qed.

(** C5: the state that [changeState] last returned is the state of the
    game: in every position reached by accepted moves it is [End(X)] or
    [End(O)] exactly when that player has a line, [End(None)] exactly when
    the board is full with no line, and [InProgress] otherwise; so a game
    ends at the move that completes a line or fills the board, and never
    earlier. *)
Theorem played_state_is_status g :
  rtc play initial g → gameState g = status (board g).
Proof. intros Hinv%rtc_play_inv. apply Hinv. Qed.

(** C15: the winner is unambiguous: when a game reached by accepted moves
    has ended with [End(c)] for a player [c], that player has a line on the
    board and the opponent has none. *)
Theorem played_winner g c :
  rtc play initial g → gameState g = GameState.End c → is_mark c = true →
  wins (board g) c = true ∧ wins (board g) (opponent c) = false.
Proof.
  intros [_ _ _ Hst Hone]%rtc_play_inv Hend Hc. rewrite Hst in Hend.
  unfold status in Hend.
  destruct (wins (board g) BoardCell.X) eqn:HX,
    (wins (board g) BoardCell.O) eqn:HO, (full (board g)); simplify_eq/=; done.
Qed.

(** C23: a draw is a draw: when a game reached by accepted moves has ended
    with [End(None)], the board is full and neither player has a line. *)
Theorem played_draw g :
  rtc play initial g → gameState g = GameState.End BoardCell.None →
  full (board g) = true ∧ wins (board g) BoardCell.X = false
  ∧ wins (board g) BoardCell.O = false.
Proof.
  intros [_ _ _ Hst _]%rtc_play_inv Hend. rewrite Hst in Hend.
  revert Hend. unfold status.
  by destruct (wins (board g) BoardCell.X), (wins (board g) BoardCell.O),
    (full (board g)).
Qed.

(** C21: the game cannot get stuck: in every position reached by accepted
    moves whose state is [InProgress] there is an empty cell, and
    [changeState] accepts the move of the player to move on it. *)
Theorem played_progress g :
  rtc play initial g → gameState g = GameState.InProgress → ∃ g', play g g'.
Proof.
  intros Hinv%rtc_play_inv Hprog.
  destruct (game_inv_no_line g Hinv Hprog) as [_ Hfull].
  destruct (not_full_empty_cell (board g)) as (x & y & Hx & Hy & Hempty);
    [apply Hinv | done |].
  eexists. apply move_play; [done|]. by apply (move_mark g x y).
Qed.

(** C22: the players alternate, [X] first: in every position reached by
    accepted moves the player to move is [X] or [O] (the [unreachable!()]
    of [main] is not reached), and [X] has as many marks as [O] when [X] is
    to move and one more when [O] is. *)
Theorem played_alternate g :
  rtc play initial g →
  is_mark (playerState g) = true ∧
  count_of BoardCell.X (board g)
  = count_of BoardCell.O (board g)
    + (if decide (playerState g = BoardCell.O) then 1 else 0).
Proof. intros Hinv%rtc_play_inv. split; apply Hinv. Qed.

(** C16: a game has at most nine accepted moves: after [n] accepted moves
    the board holds [n] marks, so [n] is at most nine, and after nine the
    game has ended. *)
Theorem played_length n g :
  nsteps play n initial g →
  count_marks (board g) = n ∧ n ≤ 9 ∧
  (n = 9 → gameState g ≠ GameState.InProgress).
Proof.
  intros Hn%nsteps_play_move.
  pose proof (rtc_move_inv _ (rtc_nsteps_2 _ _ _ Hn)) as Hinv.
  pose proof (nsteps_move_marks _ _ Hn) as Hmarks.
  pose proof (count_marks_le (board g)) as Hle.
  rewrite (inv_wf _ Hinv) in Hle. split_and!; [done | lia |].
  intros -> Hprog. rewrite (inv_status _ Hinv) in Hprog.
  apply status_InProgress in Hprog as (_ & _ & Hfull).
  rewrite count_marks_full in Hfull; [done|]. by rewrite (inv_wf _ Hinv).
Qed.

(** C40: a mark of [None] is accepted.  Called with [BoardCell::None] as
    the mark on coordinates whose column is empty, [changeState] writes
    [None] over [None], finds the column "filled" with the mark and
    returns [Ok(End(None))], the value that means a draw, leaving the board
    as it was, on a board that is not full. *)
Theorem changeState_None_mark b x y :
  wf b → (x < 3)%N → (y < 3)%N →
  line_is b BoardCell.None (column x) = true →
  TicTacToeBoard.changeState b BoardCell.None (x, y)
  = Return (b, Ok (GameState.End BoardCell.None)) ∧ full b = false.
Proof.
  intros Hwf Hx Hy Hcol. pose proof Hcol as Hempty.
  rewrite line_is_true in Hempty.
  assert (TicTacToeBoard.cells b !! position x y = Some BoardCell.None)
    as Hpos.
  { apply Hempty. unfold column, position.
    case_lt3 y; simpl; rewrite ?Nat.add_0_r; set_solver. }
  assert (place b (position x y) BoardCell.None = b) as Hsame.
  { destruct b as [l]. unfold place; simpl in *. f_equal.
    by apply list_insert_id. }
  split; [|apply forallb_false; by eauto].
  rewrite changeState_ref_eq by done. unfold changeState_ref.
  rewrite (proj2 (in_range_guard x y)), Hpos, Hsame by done; simpl.
  unfold verdict. by rewrite Hcol.
Qed.

End game_theorems.

(** ** Concrete games

    Three games of the specification's scenarios, as the positions they
    end in: [X] completes the top row; [X] completes the main diagonal;
    nine moves fill the board with no line. *)

Definition row_moves : list (usize * usize) :=
  [(0, 0); (0, 1); (1, 0); (0, 2); (2, 0)]%N.

Definition won_row : Game :=
  {| board := {| TicTacToeBoard.cells :=
       [BoardCell.X; BoardCell.X; BoardCell.X;
        BoardCell.O; BoardCell.None; BoardCell.None;
        BoardCell.O; BoardCell.None; BoardCell.None] |};
     playerState := BoardCell.O;
     gameState := GameState.End BoardCell.X |}.

Definition diagonal_moves : list (usize * usize) :=
  [(0, 0); (1, 0); (1, 1); (2, 0); (2, 2)]%N.

Definition won_diagonal : Game :=
  {| board := {| TicTacToeBoard.cells :=
       [BoardCell.X; BoardCell.O; BoardCell.O;
        BoardCell.None; BoardCell.X; BoardCell.None;
        BoardCell.None; BoardCell.None; BoardCell.X] |};
     playerState := BoardCell.O;
     gameState := GameState.End BoardCell.X |}.

Definition draw_moves : list (usize * usize) :=
  [(0, 0); (1, 0); (2, 0); (1, 1); (0, 1); (2, 1); (1, 2); (0, 2); (2, 2)]%N.

Definition drawn : Game :=
  {| board := {| TicTacToeBoard.cells :=
       [BoardCell.X; BoardCell.O; BoardCell.X;
        BoardCell.X; BoardCell.O; BoardCell.O;
        BoardCell.O; BoardCell.X; BoardCell.X] |};
     playerState := BoardCell.O;
     gameState := GameState.End BoardCell.None |}.

(** The position after the first four moves of [row_moves]. *)
Definition mid_game : Game :=
  {| board := {| TicTacToeBoard.cells :=
       [BoardCell.X; BoardCell.X; BoardCell.None;
        BoardCell.O; BoardCell.None; BoardCell.None;
        BoardCell.O; BoardCell.None; BoardCell.None] |};
     playerState := BoardCell.X;
     gameState := GameState.InProgress |}.

Example row_game : @steps target64 initial row_moves = Some won_row.
Proof. reflexivity. Qed.

Example diagonal_game :
  @steps target64 initial diagonal_moves = Some won_diagonal.
Proof. reflexivity. Qed.

Example draw_game : @steps target64 initial draw_moves = Some drawn.
Proof. reflexivity. Qed.

(** The order of moves that the specification starts to give for a draw,
    (0,0), (0,1), (0,2), (1,1), (1,0), (2,0), (1,2), (2,2), completed by the
    one cell left: the game is in progress after the eighth move and a
    draw at the ninth. *)
Definition spec_draw_moves : list (usize * usize) :=
  [(0, 0); (0, 1); (0, 2); (1, 1); (1, 0); (2, 0); (1, 2); (2, 2); (2, 1)]%N.

Example spec_draw_game :
  (gameState <$> @steps target64 initial (take 8 spec_draw_moves))
  = Some GameState.InProgress ∧
  (gameState <$> @steps target64 initial spec_draw_moves)
  = Some (GameState.End BoardCell.None).
Proof. split; reflexivity. Qed.

Example mid_game_played :
  @steps target64 initial (take 4 row_moves) = Some mid_game.
Proof. reflexivity. Qed.

(** A game that is over is not locked by the board: [changeState] accepts
    a further mark on [won_row] and answers [InProgress], although [X] has
    a line.  The hypothesis of [changeState_refines_rules] that the mover
    has no line, which the loop of [main] maintains by stopping, cannot be
    dropped. *)
Example changeState_not_locked :
  @TicTacToeBoard.changeState target64 (board won_row) BoardCell.X (1, 1)%N
  = Return (place (board won_row) 4 BoardCell.X, Ok GameState.InProgress)
  ∧ wins (place (board won_row) 4 BoardCell.X) BoardCell.X = true.
Proof. split; reflexivity. Qed.

Lemma changeState_refines_rules_witness :
  @TicTacToeBoard.changeState target64 (board mid_game) BoardCell.X (2, 0)%N
  = Return (board won_row, Ok (GameState.End BoardCell.X))
  ↔ ((2 < 3)%N ∧ (0 < 3)%N ∧
     TicTacToeBoard.cells (board mid_game) !! position 2 0
     = Some BoardCell.None ∧
     board won_row = place (board mid_game) (position 2 0) BoardCell.X ∧
     GameState.End BoardCell.X = outcome (board won_row) BoardCell.X).
Proof.
  apply (@changeState_refines_rules target64 (board mid_game) BoardCell.X
           2%N 0%N (board won_row) (GameState.End BoardCell.X));
    reflexivity.
Defined.

Lemma play_refines_move_witness :
  @play target64 mid_game won_row ↔ move mid_game won_row.
Proof.
  apply (@play_refines_move target64 mid_game won_row).
  apply (@steps_rtc target64 (take 4 row_moves)). reflexivity.
Defined.

Lemma played_state_is_status_witness :
  gameState drawn = status (board drawn).
Proof.
  apply (@played_state_is_status target64 drawn).
  apply (@steps_rtc target64 draw_moves). reflexivity.
Defined.

Lemma played_winner_witness :
  wins (board won_diagonal) BoardCell.X = true
  ∧ wins (board won_diagonal) (opponent BoardCell.X) = false.
Proof.
  apply (@played_winner target64 won_diagonal BoardCell.X);
    [|reflexivity..].
  apply (@steps_rtc target64 diagonal_moves). reflexivity.
Defined.

Lemma played_draw_witness :
  full (board drawn) = true ∧ wins (board drawn) BoardCell.X = false
  ∧ wins (board drawn) BoardCell.O = false.
Proof.
  apply (@played_draw target64 drawn); [|reflexivity].
  apply (@steps_rtc target64 draw_moves). reflexivity.
Defined.

Lemma played_progress_witness : ∃ g', @play target64 mid_game g'.
Proof.
  apply (@played_progress target64 mid_game); [|reflexivity].
  apply (@steps_rtc target64 (take 4 row_moves)). reflexivity.
Defined.

Lemma played_alternate_witness :
  is_mark (playerState won_row) = true ∧
  count_of BoardCell.X (board won_row)
  = count_of BoardCell.O (board won_row)
    + (if decide (playerState won_row = BoardCell.O) then 1 else 0).
Proof.
  apply (@played_alternate target64 won_row).
  apply (@steps_rtc target64 row_moves). reflexivity.
Defined.

Lemma played_length_witness :
  count_marks (board drawn) = 9 ∧ 9 ≤ 9 ∧
  (9 = 9 → gameState drawn ≠ GameState.InProgress).
Proof.
  apply (@played_length target64 9 drawn).
  apply (@steps_nsteps target64 draw_moves). reflexivity.
Defined.

Lemma changeState_None_mark_witness :
  @TicTacToeBoard.changeState target64 TicTacToeBoard.default BoardCell.None
    (0, 0)%N
  = Return (TicTacToeBoard.default, Ok (GameState.End BoardCell.None))
  ∧ full TicTacToeBoard.default = false.
Proof.
  apply (@changeState_None_mark target64 TicTacToeBoard.default 0%N 0%N);
    [reflexivity | lia | lia | reflexivity].
Defined.
