(* ===== verification/Positions.v ===== *)
(** * Positions: the positions of the game, by exhaustive search

    The game is small enough to be run in full.  [table] holds, for every
    number of moves from 0 to 9, the positions that the rules allow after
    that many moves: 5478 positions in all.  It is computed once, by
    applying every move of [Rules.move] to every position found, and is
    correct by construction: [played_table] shows that the positions that
    [main] reaches after [n] accepted moves are exactly the entries of
    line [n] of the table.  A property of every position that [main] can
    be in is then checked by evaluating it on the table ([played_forall]).

    The theorems: the table is sound and complete for the positions of the
    program; a game ends after five, seven or nine accepted moves if X
    wins, after six or eight if O wins, after nine if it is a draw. *)

From stdpp Require Import base decidable list numbers relations sorting.
From S2P Require Import Prelude Cell Board Rules.

#[export] Instance Game_eq_dec : EqDecision Game.
Proof. solve_decision. Defined.

(** ** The search *)

(** The coordinates of the nine cells. *)
Definition coordinates : list (usize * usize) :=
  [(0, 0); (1, 0); (2, 0); (0, 1); (1, 1); (2, 1); (0, 2); (1, 2); (2, 2)]%N.

(** The position after the player to move has marked the cell at [xy], if
    the rules allow it. *)
Definition moved (g : Game) (xy : usize * usize) : option Game :=
  match gameState g, TicTacToeBoard.cells (board g) !! position xy.1 xy.2 with
  | GameState.InProgress, Some BoardCell.None =>
      let b' := place (board g) (position xy.1 xy.2) (playerState g) in
      Some {| board := b';
              playerState := opponent (playerState g);
              gameState := outcome b' (playerState g) |}
  | _, _ => None
  end.

(** The positions one move after [g]. *)
Definition next (g : Game) : list Game := omap (moved g) coordinates.

(** Positions are sorted by the number their board spells in base 3, so
    that equal positions are neighbours, and neighbours that are equal are
    merged. *)
Definition cell_code (c : BoardCell) : N :=
  match c with
  | BoardCell.None => 0
  | BoardCell.X => 1
  | BoardCell.O => 2
  end.

Definition code (g : Game) : N :=
  foldr (λ c acc, cell_code c + 3 * acc)%N 0%N (TicTacToeBoard.cells (board g)).

Definition before (g1 g2 : Game) : Prop := (code g1 ≤ code g2)%N.

#[export] Instance before_dec g1 g2 : Decision (before g1 g2).
Proof. unfold before. apply _. Defined.

Fixpoint dedup (l : list Game) : list Game :=
  match l with
  | g1 :: l' =>
      match l' with
      | g2 :: _ => if decide (g1 = g2) then dedup l' else g1 :: dedup l'
      | [] => [g1]
      end
  | [] => []
  end.

(** The positions one move after those of [l]. *)
Definition advance (l : list Game) : list Game :=
  dedup (merge_sort before (l ≫= next)).

(** The positions after [n] moves. *)
Definition layer (n : nat) : list Game := Nat.iter n advance [initial].

(** The positions after 0, 1, .., [k] moves from those of [l]. *)
Fixpoint layers (k : nat) (l : list Game) : list (list Game) :=
  match k with
  | 0 => [l]
  | S k' => l :: layers k' (advance l)
  end.

(** The positions of the game, by number of moves, computed. *)
Definition table : list (list Game) :=
  Eval vm_compute in layers 9 [initial].

(** ** The search is sound and complete *)

Lemma elem_of_coordinates xy :
  xy ∈ coordinates ↔ (xy.1 < 3)%N ∧ (xy.2 < 3)%N.
Proof.
  destruct xy as [x y]; simpl. unfold coordinates.
  rewrite !elem_of_cons, elem_of_nil. split.
  - intros H; destruct_or!; simplify_eq; lia.
  - intros [Hx Hy]. case_lt3 x; case_lt3 y; tauto.
Qed.

Lemma elem_of_next g g' : g' ∈ next g ↔ move g g'.
Proof.
  unfold next. rewrite list_elem_of_omap. split.
  - intros ([x y] & [Hx Hy]%elem_of_coordinates & Hmoved).
    unfold moved in Hmoved; simpl in *.
    destruct (gameState g) eqn:Hstate; [|done].
    destruct (_ !! _) as [[]|] eqn:Hcell; simplify_eq. by constructor.
  - intros [g0 x y Hstate Hx Hy Hcell]. exists (x, y).
    rewrite elem_of_coordinates. unfold moved; simpl.
    by rewrite Hstate, Hcell.
Qed.

Lemma elem_of_dedup g l : g ∈ dedup l ↔ g ∈ l.
Proof.
  induction l as [|g1 [|g2 l] IH]; [done..|].
  change (dedup (g1 :: g2 :: l))
    with (if decide (g1 = g2) then dedup (g2 :: l) else g1 :: dedup (g2 :: l)).
  case_decide as Heq; [subst g1|];
    rewrite ?elem_of_cons, IH, ?elem_of_cons; tauto.
Qed.

Lemma elem_of_advance g' l : g' ∈ advance l ↔ ∃ g, g ∈ l ∧ move g g'.
Proof.
  unfold advance. rewrite elem_of_dedup, merge_sort_Permutation.
  rewrite list_elem_of_bind. setoid_rewrite elem_of_next.
  split; intros (g & ? & ?); eauto.
Qed.

Lemma elem_of_layer n g : g ∈ layer n ↔ nsteps move n initial g.
Proof.
  revert g. induction n as [|n IH]; intros g; unfold layer; simpl.
  - rewrite list_elem_of_singleton. split; [intros ->; constructor|].
    by inversion 1.
  - rewrite elem_of_advance. setoid_rewrite IH. split.
    + intros (g1 & Hn & Hmove). by eapply nsteps_r.
    + by intros ?%nsteps_inv_r.
Qed.

Lemma layers_lookup k n l :
  n ≤ k → layers k l !! n = Some (Nat.iter n advance l).
Proof.
  revert n l. induction k as [|k IH]; intros [|n] l Hn; simpl; try done;
    [lia|].
  rewrite IH by lia. by rewrite <-Nat.iter_succ_r.
Qed.

Lemma table_layers : table = layers 9 [initial].
Proof. vm_compute. reflexivity. Qed.

Lemma table_lookup n l : table !! n = Some l ↔ n ≤ 9 ∧ l = layer n.
Proof.
  rewrite table_layers. split.
  - intros Hl. assert (n ≤ 9) as Hn.
    { apply lookup_lt_Some in Hl. simpl in Hl. lia. }
    rewrite layers_lookup in Hl by done. by simplify_eq.
  - intros [Hn ->]. by apply layers_lookup.
Qed.

Section positions.
Context `{Target}.

Lemma nsteps_move_play n g : nsteps move n initial g → nsteps play n initial g.
Proof.
  revert g. induction n as [|n IH]; intros g Hn.
  - inverts Hn. constructor.
  - apply nsteps_inv_r in Hn as (g1 & Hn & Hstep).
    eapply nsteps_r; [by apply IH|]. apply move_play; [|done].
    eapply rtc_move_inv, rtc_nsteps_2, Hn.
Qed.

(** The positions after [n] accepted moves are line [n] of the table. *)
Lemma played_layer n g : nsteps play n initial g ↔ n ≤ 9 ∧ g ∈ layer n.
Proof.
  rewrite elem_of_layer. split.
  - intros Hn. split; [by eapply nsteps_play_le_9 | by apply nsteps_play_move].
  - intros [_ Hn]. by apply nsteps_move_play.
Qed.

(** A property of the positions of the game holds if it evaluates to
    [true] on the table. *)
Lemma played_forall (P : nat → Game → bool) :
  forallb (λ nl, forallb (P nl.1) nl.2) (imap pair table) = true →
  ∀ n g, nsteps play n initial g → P n g = true.
Proof.
  rewrite forallb_forall. intros Htable n g [Hn Hg]%played_layer.
  specialize (Htable (n, layer n)). rewrite forallb_forall in Htable.
  apply Htable; [|by apply list_elem_of_In].
  apply list_elem_of_In, list_elem_of_lookup. exists n.
  rewrite list_lookup_imap, (proj2 (table_lookup n (layer n))); done.
Qed.

(** The numbers of accepted moves after which a game can be in the state
    [s]. *)
Definition end_moves (s : GameState) : list nat :=
  match s with
  | GameState.InProgress => seq 0 9
  | GameState.End BoardCell.X => [5; 7; 9]
  | GameState.End BoardCell.O => [6; 8]
  | GameState.End BoardCell.None => [9]
  end.

(** C19: the search is sound and complete for the program: the positions
    the loop of [main] is in after [n] accepted moves are exactly the
    positions of line [n] of the table. *)
Theorem played_table n g :
  nsteps play n initial g ↔ ∃ l, table !! n = Some l ∧ g ∈ l.
Proof.
  rewrite played_layer. setoid_rewrite table_lookup. split.
  - intros [Hn Hg]. by eauto.
  - by intros (l & [Hn ->] & Hg).
Qed.

(** C20: how long a game lasts: X wins at the fifth, seventh or ninth
    accepted move, O at the sixth or eighth, a draw is declared at the
    ninth, and the game is in progress only before the ninth; no game ends
    before the fifth move. *)
Theorem played_end_moves n g :
  nsteps play n initial g → n ∈ end_moves (gameState g).
Proof.
  intros Hn.
  apply (played_forall (λ n g, bool_decide (n ∈ end_moves (gameState g))))
    in Hn; [by apply bool_decide_eq_true in Hn|].
  by vm_compute.
Qed.

End positions.

(** The number of positions after 0, 1, .., 9 moves, and in all. *)
Example table_sizes :
  length <$> table = [1; 9; 72; 252; 756; 1260; 1520; 1140; 390; 78] ∧
  N.of_nat (length (concat table)) = 5478%N.
Proof. by vm_compute. Qed.

(** ** Witnesses *)

Lemma played_end_moves_witness : 5 ∈ end_moves (gameState won_row).
Proof.
  apply (played_end_moves (H := target64) 5 won_row).
  apply (steps_nsteps (H := target64) row_moves). reflexivity.
Defined.
