(* ===== verification/Render.v ===== *)
(** * Render: the text of the board

    [TicTacToeBoard.fmt] writes the nine cells as three rows separated by
    rules.  [render] is that text as a function of the cells, without the
    bounds-checked indexing; [unrender] reads a board back from a text.

    The theorems: on a board of nine cells [fmt] does not panic and produces
    [render], a text of thirty bytes in the format of the specification;
    [unrender] inverts it, so the text printed determines the board. *)

From Stdlib Require Import Ascii String.
From stdpp Require Import base decidable list numbers strings.
From S2P Require Import Prelude Cell Board.

(** The character a cell is displayed as. *)
Definition cell_char (c : BoardCell) : ascii :=
  match c with
  | BoardCell.X => "X"
  | BoardCell.O => "O"
  | BoardCell.None => " "
  end%char.

(** The cell at position [i], [None] beyond the end. *)
Definition cell (b : TicTacToeBoard) (i : nat) : BoardCell :=
  default BoardCell.None (TicTacToeBoard.cells b !! i).

(** The row of cells [i], [i + 1], [i + 2]: [c|c|c] and a line feed. *)
Definition render_row (b : TicTacToeBoard) (i : nat) : string :=
  String (cell_char (cell b i))
    (String "|" (String (cell_char (cell b (i + 1)))
      (String "|" (String (cell_char (cell b (i + 2))) LF)))).

Definition rule : string := "-+-+-" +:+ LF.

Definition render (b : TicTacToeBoard) : string :=
  render_row b 0 +:+ rule +:+ render_row b 3 +:+ rule +:+ render_row b 6.

(** Reading back. *)
Definition cell_of_char (a : ascii) : option BoardCell :=
  if decide (a = "X"%char) then Some BoardCell.X
  else if decide (a = "O"%char) then Some BoardCell.O
  else if decide (a = " "%char) then Some BoardCell.None
  else None.

Definition unrender_row (s : string) : option (list BoardCell * string) :=
  match s with
  | String a0 (String bar0 (String a1 (String bar1 (String a2 (String lf rest))))) =>
      if decide (bar0 = "|"%char ∧ bar1 = "|"%char ∧ String lf "" = LF) then
        c0 ← cell_of_char a0; c1 ← cell_of_char a1; c2 ← cell_of_char a2;
        Some ([c0; c1; c2], rest)
      else None
  | _ => None
  end.

Definition unrender_rule (s : string) : option string :=
  match s with
  | String m0 (String p0 (String m1 (String p1 (String m2 (String lf rest))))) =>
      if decide (String m0 (String p0 (String m1 (String p1 (String m2
                   (String lf ""))))) = rule)
      then Some rest else None
  | _ => None
  end.

Definition unrender (s : string) : option TicTacToeBoard :=
  '(r0, s) ← unrender_row s;
  s ← unrender_rule s;
  '(r1, s) ← unrender_row s;
  s ← unrender_rule s;
  '(r2, s) ← unrender_row s;
  if decide (s = "") then Some {| TicTacToeBoard.cells := r0 ++ r1 ++ r2 |}
  else None.

Section render_lemmas.
Implicit Types (b : TicTacToeBoard) (c : BoardCell).

Lemma BoardCell_fmt_char c : fmt c = Return (String (cell_char c) "").
Proof. by destruct c. Qed.

Lemma cell_of_cell_char c : cell_of_char (cell_char c) = Some c.
Proof. by destruct c. Qed.

Lemma cell_char_inj c1 c2 : cell_char c1 = cell_char c2 → c1 = c2.
Proof. by destruct c1, c2. Qed.

(** On nine cells [fmt] is [render]. *)
Lemma fmt_render b : wf b → fmt b = Return (render b).
Proof.
  intros Hwf. destruct b as [l]. unfold wf in Hwf; simpl in Hwf.
  list_of_length l.
  unfold fmt, TicTacToeBoard_Display, TicTacToeBoard.fmt; simpl.
  rewrite !BoardCell_fmt_char. reflexivity.
Qed.

Lemma unrender_render_wf b : wf b → unrender (render b) = Some b.
Proof.
  intros Hwf. destruct b as [l]. unfold wf in Hwf; simpl in Hwf.
  list_of_length l.
  cbv -[cell_of_char cell_char]. rewrite !cell_of_cell_char. reflexivity.
Qed.

End render_lemmas.

Section render_theorems.
Implicit Types (b : TicTacToeBoard).

(** C30: displaying a board of nine cells does not panic and produces thirty
    bytes, three rows [c|c|c] separated by the rule [-+-+-], each followed
    by a line feed, from which the board is read back: the text printed
    determines every cell. *)
Theorem fmt_unrender b :
  wf b →
  ∃ s, fmt b = Return s ∧ String.length s = 30 ∧ unrender s = Some b.
Proof.
  intros Hwf. exists (render b). split_and!.
  - by apply fmt_render.
  - reflexivity.
  - by apply unrender_render_wf.
Qed.

(** Two boards of nine cells that are displayed alike are equal. *)
Lemma fmt_board_inj b1 b2 : wf b1 → wf b2 → fmt b1 = fmt b2 → b1 = b2.
Proof.
  intros Hwf1 Hwf2. rewrite !fmt_render by done. intros Heq.
  apply (f_equal (λ r, s ← (if r is Return s then Some s else None);
                       unrender s)) in Heq; simpl in Heq.
  rewrite !unrender_render_wf in Heq by done. by simplify_eq.
Qed.

End render_theorems.

(** The empty board and [almost_full] as the console shows them. *)
Example fmt_default :
  fmt TicTacToeBoard.default
  = Return (" | | " +:+ LF +:+ "-+-+-" +:+ LF +:+
            " | | " +:+ LF +:+ "-+-+-" +:+ LF +:+
            " | | " +:+ LF).
Proof. reflexivity. Qed.

Example fmt_almost_full :
  fmt almost_full
  = Return ("X|O|X" +:+ LF +:+ "-+-+-" +:+ LF +:+
            "X|O|O" +:+ LF +:+ "-+-+-" +:+ LF +:+
            "O|X| " +:+ LF).
Proof. reflexivity. Qed.

Lemma fmt_unrender_witness :
  ∃ s, fmt almost_full = Return s ∧ String.length s = 30
       ∧ unrender s = Some almost_full.
Proof. apply (fmt_unrender almost_full). reflexivity. Defined.
