(* ===== verification/Text.v ===== *)
(** * Text: the [str] operations that [main] calls

    [main] turns the line read into two numbers with three functions of the
    Rust standard library: [userInput.split(' ')], [str::trim] and
    [str::parse::<usize>].  They are not part of the program; this file
    models them from their documented behaviour, over strings as sequences
    of bytes (Rust strings are UTF-8).

    - [split_space]: the pieces between occurrences of the space
      character; always at least one piece, empty pieces included.
    - [trim]: removes from both ends the characters with the Unicode
      property White_Space, in their UTF-8 encodings ([White_Space]).
    - [parse_usize]: an optional [+] followed by at least one ASCII digit,
      accumulated from the left with a check for overflow of [usize] at
      every digit; the three ways it fails are [ParseIntError.t].

    The theorems: [split_space] inverts joining with spaces and its pieces
    hold no space; [parse_usize] returns the number a digit string denotes
    exactly when that number fits [usize], and reports [PosOverflow]
    exactly when it does not. *)

From Stdlib Require Import Ascii String.
From stdpp Require Import base decidable list numbers strings sets.
From S2P Require Import Prelude.

(** ** Bytes *)

Definition byte (n : N) : ascii := ascii_of_N n.

Definition bytes_of (s : string) : list ascii := list_ascii_of_string s.
Definition string_of (l : list ascii) : string := string_of_list_ascii l.

(** ** [str::split(' ')] *)

Fixpoint split_on (sep : ascii) (l : list ascii) : list (list ascii) :=
  match l with
  | [] => [[]]
  | c :: l' =>
      if decide (c = sep) then [] :: split_on sep l'
      else match split_on sep l' with
           | w :: ws => (c :: w) :: ws
           | [] => [[c]]
           end
  end.

Definition split_space (s : string) : list string :=
  string_of <$> split_on " "%char (bytes_of s).

(** ** [str::trim] *)

(** The code points with the property White_Space, U+0009 to U+000D,
    U+0020, U+0085, U+00A0, U+1680, U+2000 to U+200A, U+2028, U+2029,
    U+202F, U+205F and U+3000, as UTF-8 byte sequences. *)
Definition White_Space : list (list ascii) :=
  (fmap (M := list) byte) <$>
    [[9]; [10]; [11]; [12]; [13]; [32];
     [194; 133]; [194; 160]; [225; 154; 128];
     [226; 128; 128]; [226; 128; 129]; [226; 128; 130]; [226; 128; 131];
     [226; 128; 132]; [226; 128; 133]; [226; 128; 134]; [226; 128; 135];
     [226; 128; 136]; [226; 128; 137]; [226; 128; 138];
     [226; 128; 168]; [226; 128; 169]; [226; 128; 175];
     [226; 129; 159]; [227; 128; 128]]%N.

(** The rest of [l] after one of the sequences [pats] at its start. *)
Definition strip_one (pats : list (list ascii)) (l : list ascii)
  : option (list ascii) :=
  (λ p, drop (length p) l) <$> find (λ p, bool_decide (p `prefix_of` l)) pats.

(** Strips sequences of [pats] from the start of [l] while there is one;
    [n] bounds the number of sequences stripped. *)
Fixpoint strip_start (pats : list (list ascii)) (n : nat) (l : list ascii)
  : list ascii :=
  match n with
  | 0 => l
  | S n' =>
      match strip_one pats l with
      | Some l' => strip_start pats n' l'
      | None => l
      end
  end.

Definition trim_start_bytes (l : list ascii) : list ascii :=
  strip_start White_Space (length l) l.

Definition trim_end_bytes (l : list ascii) : list ascii :=
  reverse (strip_start (reverse <$> White_Space) (length l) (reverse l)).

Definition trim (s : string) : string :=
  string_of (trim_end_bytes (trim_start_bytes (bytes_of s))).

(** ** [str::parse::<usize>] *)

Module ParseIntError.

(** [core::num::IntErrorKind], the kinds that parsing a [usize] produces. *)
Inductive t : Type :=
| Empty
| InvalidDigit
| PosOverflow.

(** [ParseIntError::description]: the text of each kind. *)
Definition description (self : t) : string :=
  match self with
  | Empty => "cannot parse integer from empty string"
  | InvalidDigit => "invalid digit found in string"
  | PosOverflow => "number too large to fit in target type"
  end.

(** [impl Display for ParseIntError]: it writes the description. *)
Definition fmt (self : t) : Run string := mret (description self).

End ParseIntError.

Abbreviation ParseIntError := ParseIntError.t.

#[export] Instance ParseIntError_Display : Display ParseIntError :=
  ParseIntError.fmt.

#[export] Instance ParseIntError_eq_dec : EqDecision ParseIntError.
Proof. solve_decision. Defined.

(** [char::to_digit(10)]. *)
Definition to_digit (c : ascii) : option N :=
  let n := N_of_ascii c in
  if decide (48 ≤ n ≤ 57)%N then Some (n - 48)%N else None.

Section parse.
Context `{Target}.
Local Open Scope N_scope.

(** The loop of [from_str_radix] in base ten: for each character, the digit
    is decoded, the accumulator is multiplied by ten and the digit added,
    each with a check against [usize::MAX]. *)
Fixpoint parse_digits (digits : list ascii) (result : usize)
  : Result usize ParseIntError :=
  match digits with
  | [] => Ok result
  | c :: digits' =>
      match to_digit c with
      | None => Err ParseIntError.InvalidDigit
      | Some x =>
          if decide (result * 10 ≤ usize_MAX)%N then
            if decide (result * 10 + x ≤ usize_MAX)%N
            then parse_digits digits' (result * 10 + x)%N
            else Err ParseIntError.PosOverflow
          else Err ParseIntError.PosOverflow
      end
  end.

Definition parse_usize (s : string) : Result usize ParseIntError :=
  match bytes_of s with
  | [] => Err ParseIntError.Empty
  | [c] =>
      if decide (c = "+"%char ∨ c = "-"%char)
      then Err ParseIntError.InvalidDigit
      else parse_digits [c] 0
  | c :: digits =>
      if decide (c = "+"%char) then parse_digits digits 0
      else parse_digits (c :: digits) 0
  end.

End parse.

(** ** Reference definitions *)

(** Joining pieces with a separator, the inverse of [split_on]. *)
Fixpoint join (sep : ascii) (ws : list (list ascii)) : list ascii :=
  match ws with
  | [] => []
  | [w] => w
  | w :: ws' => w ++ sep :: join sep ws'
  end.

Definition is_digit (c : ascii) : bool := bool_decide (is_Some (to_digit c)).

(** The number a sequence of digits denotes, continuing from [result]. *)
Definition number_from (result : N) (digits : list ascii) : N :=
  foldl (λ acc c, acc * 10 + default 0 (to_digit c))%N result digits.

Definition number (digits : list ascii) : N := number_from 0 digits.

(** The digits at the start of a sequence of bytes. *)
Fixpoint digits_prefix (l : list ascii) : list ascii :=
  match l with
  | c :: l' => if is_digit c then c :: digits_prefix l' else []
  | [] => []
  end.

(** What [parse_digits] returns, in terms of the number denoted: overflow
    if the digits at the start denote a number above [usize::MAX], else an
    invalid digit if a byte follows them, else the number. *)
Definition parse_ref `{Target} (digits : list ascii) (result : N)
  : Result usize ParseIntError :=
  let ds := digits_prefix digits in
  if decide (number_from result ds ≤ usize_MAX)%N then
    if decide (ds = digits) then Ok (number_from result ds)
    else Err ParseIntError.InvalidDigit
  else Err ParseIntError.PosOverflow.

(** The digit character of a number below ten. *)
Definition digit_char (d : N) : ascii := byte (48 + d).

(** The decimal digits of [n] before [acc], most significant first; [fuel]
    bounds the number of digits, and the number of bits of [n] is enough. *)
Fixpoint digits_of (fuel : nat) (n : N) (acc : list ascii) : list ascii :=
  match fuel with
  | 0 => acc
  | S fuel' =>
      let acc' := digit_char (n mod 10) :: acc in
      if (n <? 10)%N then acc' else digits_of fuel' (n / 10) acc'
  end.

Definition decimal (n : N) : string :=
  string_of (digits_of (S (N.to_nat (N.size n))) n []).

(** ** Lemmas: bytes and [split] *)

Lemma bytes_of_string_of l : bytes_of (string_of l) = l.
Proof. apply list_ascii_of_string_of_list_ascii. Qed.

Lemma string_of_bytes_of s : string_of (bytes_of s) = s.
Proof. apply string_of_list_ascii_of_string. Qed.

Lemma bytes_of_app s1 s2 : bytes_of (s1 +:+ s2) = bytes_of s1 ++ bytes_of s2.
Proof. induction s1 as [|c s1 IH]; simpl; [done | by rewrite <-IH]. Qed.

#[export] Hint Rewrite bytes_of_string_of string_of_bytes_of bytes_of_app : run.

Lemma split_on_nonempty sep l : split_on sep l ≠ [].
Proof. destruct l as [|c l]; simpl; [done|]. case_decide; by destruct split_on. Qed.

Lemma split_on_cons_ne sep c l :
  c ≠ sep →
  ∃ w ws, split_on sep l = w :: ws ∧ split_on sep (c :: l) = (c :: w) :: ws.
Proof.
  intros Hc. simpl. rewrite decide_False by done.
  pose proof (split_on_nonempty sep l). destruct (split_on sep l); by eauto.
Qed.

Lemma split_on_notin sep w : sep ∉ w → split_on sep w = [w].
Proof.
  induction w as [|c w IH]; [done|].
  rewrite not_elem_of_cons. intros [Hc Hw].
  destruct (split_on_cons_ne sep c w) as (w' & ws & Hsplit & ->); [done|].
  rewrite IH in Hsplit by done. by simplify_eq.
Qed.

Lemma split_on_app_sep sep w l :
  sep ∉ w → split_on sep (w ++ sep :: l) = w :: split_on sep l.
Proof.
  induction w as [|c w IH]; simpl.
  - intros _. by rewrite decide_True.
  - rewrite not_elem_of_cons. intros [Hc Hw].
    rewrite decide_False, IH by done. done.
Qed.

Lemma split_on_join sep l : join sep (split_on sep l) = l.
Proof.
  induction l as [|c l IH]; [done|].
  destruct (decide (c = sep)) as [->|Hc].
  - simpl. rewrite decide_True by done.
    pose proof (split_on_nonempty sep l).
    rewrite <-IH at 2. by destruct (split_on sep l).
  - destruct (split_on_cons_ne sep c l) as (w & ws & Hsplit & ->); [done|].
    rewrite Hsplit in IH. rewrite <-IH. by destruct ws.
Qed.

Lemma split_on_no_sep sep l : Forall (λ w, sep ∉ w) (split_on sep l).
Proof.
  induction l as [|c l IH].
  - repeat constructor. by intros ?%elem_of_nil.
  - destruct (decide (c = sep)) as [->|Hc].
    + simpl. rewrite decide_True by done.
      constructor; [by intros ?%elem_of_nil | done].
    + destruct (split_on_cons_ne sep c l) as (w & ws & Hsplit & ->); [done|].
      rewrite Hsplit in IH. apply Forall_cons in IH as [Hw Hws].
      constructor; [|done]. rewrite not_elem_of_cons. auto.
Qed.

Lemma join_split_on sep ws :
  ws ≠ [] → Forall (λ w, sep ∉ w) ws → split_on sep (join sep ws) = ws.
Proof.
  induction ws as [|w ws IH]; [done|]. intros _ Hws; inverts Hws.
  destruct ws as [|w' ws]; [by apply split_on_notin|].
  change (join sep (w :: w' :: ws)) with (w ++ sep :: join sep (w' :: ws)).
  rewrite split_on_app_sep, IH by done. done.
Qed.

Lemma split_on_length sep l :
  length (split_on sep l) = S (length (filter (sep =.) l)).
Proof.
  induction l as [|c l IH]; [done|].
  destruct (decide (c = sep)) as [->|Hc].
  - simpl. rewrite decide_True, filter_cons_True by done. simpl. by rewrite IH.
  - destruct (split_on_cons_ne sep c l) as (w & ws & Hsplit & ->); [done|].
    rewrite filter_cons_False, <-IH, Hsplit by done. done.
Qed.

(** ** Lemmas: [trim] *)

Lemma reverse_concat {A} (ls : list (list A)) :
  reverse (concat ls) = concat (reverse (reverse <$> ls)).
Proof.
  induction ls as [|l ls IH]; [done|]. simpl.
  rewrite reverse_app, reverse_cons, concat_app, IH. simpl.
  by rewrite app_nil_r.
Qed.

Lemma strip_one_None pats l :
  strip_one pats l = None ↔ Forall (λ p, ¬ p `prefix_of` l) pats.
Proof.
  unfold strip_one. rewrite fmap_None.
  induction pats as [|p pats IH]; simpl; [by split|].
  rewrite Forall_cons. case_bool_decide; [|tauto]. split; [done|tauto].
Qed.

Lemma strip_one_Some pats l l' :
  strip_one pats l = Some l' → ∃ p, p ∈ pats ∧ l = p ++ l'.
Proof.
  unfold strip_one. rewrite fmap_Some. intros (p & Hfind & ->).
  apply find_some in Hfind as [Hin [k ->]%bool_decide_eq_true].
  exists p. by rewrite list_elem_of_In, drop_app_length.
Qed.

(** What [strip_start] removes is a sequence of patterns. *)
Lemma strip_start_removed pats n l :
  ∃ ps, Forall (.∈ pats) ps ∧ l = concat ps ++ strip_start pats n l.
Proof.
  revert l; induction n as [|n IH]; intros l; simpl; [by exists []|].
  destruct (strip_one pats l) as [l'|] eqn:Hone; [|by exists []].
  apply strip_one_Some in Hone as (p & Hp & ->).
  destruct (IH l') as (ps & Hps & Hl').
  exists (p :: ps). split; [by constructor|].
  simpl. by rewrite <-app_assoc, <-Hl'.
Qed.

(** The fuel [length l] is enough: nothing is left to strip. *)
Lemma strip_start_done pats n l :
  [] ∉ pats → length l ≤ n → strip_one pats (strip_start pats n l) = None.
Proof.
  intros Hpats. revert l; induction n as [|n IH]; intros l Hn; simpl.
  - destruct l; [|simpl in Hn; lia].
    apply strip_one_None, Forall_forall. intros p Hp [k Hk].
    symmetry in Hk. apply app_nil in Hk as [-> _]. done.
  - destruct (strip_one pats l) as [l'|] eqn:Hone; [|done].
    apply IH. apply strip_one_Some in Hone as (p & Hp & ->).
    rewrite length_app in Hn. destruct p; [done | simpl in Hn; lia].
Qed.

Lemma strip_start_None pats n l :
  strip_one pats l = None → strip_start pats n l = l.
Proof. intros Hone. destruct n; simpl; by rewrite ?Hone. Qed.

Lemma White_Space_nonempty : ([] ∉ White_Space) ∧ ([] ∉ reverse <$> White_Space).
Proof. split; by apply (bool_decide_unpack _). Qed.

Lemma to_digit_strip_start c l d :
  to_digit c = Some d → strip_one White_Space (c :: l) = None.
Proof.
  intros Hd.
  destruct c as [[] [] [] [] [] [] [] []]; try discriminate Hd; reflexivity.
Qed.

Lemma to_digit_strip_end c l d :
  to_digit c = Some d → strip_one (reverse <$> White_Space) (c :: l) = None.
Proof.
  intros Hd.
  destruct c as [[] [] [] [] [] [] [] []]; try discriminate Hd; reflexivity.
Qed.

Lemma is_digit_true c : is_digit c = true ↔ ∃ d, to_digit c = Some d.
Proof. unfold is_digit. by rewrite bool_decide_eq_true. Qed.

Lemma is_digit_Some c d : to_digit c = Some d → is_digit c = true.
Proof. intros Hc. apply is_digit_true. eauto. Qed.

Lemma is_digit_None c : to_digit c = None → is_digit c = false.
Proof.
  intros Hc. apply not_true_is_false. rewrite is_digit_true, Hc. by intros [? ?].
Qed.

Lemma forallb_is_digit ds c :
  forallb is_digit ds = true → c ∈ ds → ∃ d, to_digit c = Some d.
Proof.
  rewrite forallb_forall. intros Hds Hc%list_elem_of_In.
  by apply is_digit_true, Hds.
Qed.

(** [trim_end_bytes] of bytes that end with a digit. *)
Lemma trim_end_digit l c d :
  to_digit c = Some d → trim_end_bytes (l ++ [c]) = l ++ [c].
Proof.
  intros Hc. unfold trim_end_bytes. rewrite reverse_snoc.
  rewrite strip_start_None by eauto using to_digit_strip_end.
  by rewrite <-reverse_snoc, reverse_involutive.
Qed.

(** A string of digits is its own [trim]. *)
Lemma trim_digits ds :
  forallb is_digit ds = true → trim (string_of ds) = string_of ds.
Proof.
  intros Hds. unfold trim, trim_start_bytes.
  rewrite bytes_of_string_of. f_equal.
  destruct ds as [|c ds]; [done|].
  destruct (forallb_is_digit _ c Hds) as [d Hc]; [left|].
  rewrite strip_start_None by eauto using to_digit_strip_start.
  destruct (exists_last (l := c :: ds)) as (l & c' & Hlast); [done|].
  rewrite Hlast in *.
  destruct (forallb_is_digit _ c' Hds) as [d' Hc']; [set_solver|].
  by eapply trim_end_digit.
Qed.

(** The line feed that ends the line read is removed by [trim]. *)
Lemma trim_digits_LF ds :
  ds ≠ [] → forallb is_digit ds = true →
  trim (string_of (ds ++ bytes_of LF)) = string_of ds.
Proof.
  intros Hne Hds. unfold trim, trim_start_bytes.
  rewrite bytes_of_string_of. f_equal.
  destruct ds as [|c ds]; [done|].
  destruct (forallb_is_digit _ c Hds) as [d Hc]; [left|].
  rewrite strip_start_None by (simpl; eauto using to_digit_strip_start).
  destruct (exists_last (l := c :: ds)) as (l & c' & Hlast); [done|].
  rewrite Hlast in *.
  destruct (forallb_is_digit _ c' Hds) as [d' Hc']; [set_solver|].
  unfold trim_end_bytes. rewrite reverse_app; simpl.
  rewrite !length_app; simpl. rewrite Nat.add_1_r; simpl.
  change (strip_one _ _) with (Some (reverse (l ++ [c']))).
  rewrite reverse_snoc.
  rewrite strip_start_None by eauto using to_digit_strip_end.
  by rewrite drop_0, <-reverse_snoc, reverse_involutive.
Qed.

Lemma digits_no_space ds : forallb is_digit ds = true → " "%char ∉ ds.
Proof. by intros Hds [d Hd]%(forallb_is_digit _ _ Hds). Qed.

Lemma digits_LF_no_space ds :
  forallb is_digit ds = true → " "%char ∉ ds ++ bytes_of LF.
Proof.
  intros Hds. rewrite not_elem_of_app. split; [by apply digits_no_space|].
  by apply (bool_decide_unpack _).
Qed.

(** ** Lemmas: [parse] *)

Section parse_lemmas.
Context `{Target}.
Local Open Scope N_scope.
Implicit Types (c : ascii) (ds digits : list ascii) (r n d : N).

Lemma to_digit_lt c d : to_digit c = Some d → d < 10.
Proof. unfold to_digit. case_decide; intros; simplify_eq. lia. Qed.

Lemma to_digit_digit_char d : d < 10 → to_digit (digit_char d) = Some d.
Proof.
  intros Hd.
  assert (d ∈ [0; 1; 2; 3; 4; 5; 6; 7; 8; 9]) as Hin
    by (rewrite !elem_of_cons; lia).
  rewrite !elem_of_cons, elem_of_nil in Hin. by destruct_or!; subst.
Qed.

Lemma number_from_cons r c ds d :
  to_digit c = Some d → number_from r (c :: ds) = number_from (r * 10 + d) ds.
Proof. intros Hc. unfold number_from; simpl. by rewrite Hc. Qed.

Lemma number_from_app r ds1 ds2 :
  number_from r (ds1 ++ ds2) = number_from (number_from r ds1) ds2.
Proof. apply foldl_app. Qed.

Lemma number_from_ge r ds : r ≤ number_from r ds.
Proof.
  revert r; induction ds as [|c ds IH]; intros r; [done|].
  unfold number_from; simpl. etrans; [|apply IH]. lia.
Qed.

Lemma parse_ref_nil r : r ≤ usize_MAX → parse_ref [] r = Ok r.
Proof. intros Hr. unfold parse_ref; simpl. by rewrite decide_True. Qed.

Lemma parse_ref_invalid c ds r :
  to_digit c = None → r ≤ usize_MAX →
  parse_ref (c :: ds) r = Err ParseIntError.InvalidDigit.
Proof.
  intros Hc Hr. unfold parse_ref; simpl.
  rewrite (is_digit_None _ Hc). by rewrite decide_True.
Qed.

Lemma parse_ref_digit c ds r d :
  to_digit c = Some d → parse_ref (c :: ds) r = parse_ref ds (r * 10 + d).
Proof.
  intros Hc. unfold parse_ref; simpl. rewrite (is_digit_Some _ _ Hc).
  rewrite (number_from_cons _ _ _ _ Hc).
  repeat case_decide; congruence.
Qed.

Lemma parse_ref_overflow ds r :
  usize_MAX < r → parse_ref ds r = Err ParseIntError.PosOverflow.
Proof.
  intros Hr. unfold parse_ref. rewrite decide_False; [done|].
  pose proof (number_from_ge r (digits_prefix ds)). lia.
Qed.

(** [parse_digits] in terms of the number denoted. *)
Lemma parse_digits_parse_ref ds r :
  r ≤ usize_MAX → parse_digits ds r = parse_ref ds r.
Proof.
  revert r; induction ds as [|c ds IH]; intros r Hr; simpl.
  - by rewrite parse_ref_nil.
  - destruct (to_digit c) as [d|] eqn:Hc; [|by rewrite parse_ref_invalid].
    rewrite (parse_ref_digit _ _ _ _ Hc).
    repeat case_decide; rewrite ?IH, ?parse_ref_overflow by lia; done.
Qed.

Lemma digits_prefix_all ds : forallb is_digit ds = true → digits_prefix ds = ds.
Proof.
  induction ds as [|c ds IH]; simpl; [done|].
  intros [-> ?]%andb_prop. by rewrite IH.
Qed.

Lemma digits_prefix_digits ds : forallb is_digit (digits_prefix ds) = true.
Proof.
  induction ds as [|c ds IH]; simpl; [done|].
  destruct (is_digit c) eqn:Hc; simpl; by rewrite ?Hc.
Qed.

(** [parse_usize] on bytes, after the optional sign. *)
Lemma parse_usize_bytes s :
  parse_usize s =
    match bytes_of s with
    | [] => Err ParseIntError.Empty
    | c :: digits =>
        if decide (c = "+"%char ∧ digits ≠ []) then parse_ref digits 0
        else parse_ref (c :: digits) 0
    end.
Proof.
  unfold parse_usize. pose proof usize_MAX_ge.
  destruct (bytes_of s) as [|c [|c' ds]]; [done|..].
  - rewrite (decide_False (P := _ ∧ _)) by tauto.
    case_decide as Hc; [|by rewrite parse_digits_parse_ref by lia].
    by destruct Hc as [-> | ->]; rewrite parse_ref_invalid by (done || lia).
  - case_decide as Hc.
    + rewrite decide_True by done. by rewrite parse_digits_parse_ref by lia.
    + rewrite decide_False by tauto. by rewrite parse_digits_parse_ref by lia.
Qed.

Lemma parse_ref_digits ds r :
  forallb is_digit ds = true →
  parse_ref ds r = if decide (number_from r ds ≤ usize_MAX)
                   then Ok (number_from r ds) else Err ParseIntError.PosOverflow.
Proof.
  intros Hds. unfold parse_ref. rewrite digits_prefix_all by done.
  by rewrite (decide_True (P := ds = ds)).
Qed.

Lemma parse_ref_Ok ds r n :
  parse_ref ds r = Ok n ↔
  forallb is_digit ds = true ∧ number_from r ds = n ∧ n ≤ usize_MAX.
Proof.
  split.
  - unfold parse_ref. pose proof (digits_prefix_digits ds) as Hpre.
    case_decide as Hle; [|done]. case_decide as Heq; [|done].
    intros [= <-]. by rewrite Heq in Hpre, Hle |- *.
  - intros (Hds & <- & Hn). by rewrite parse_ref_digits, decide_True.
Qed.

(** The digits of a string start with a digit, never with a sign. *)
Lemma digits_not_sign c ds :
  forallb is_digit (c :: ds) = true → c ≠ "+"%char.
Proof. by intros [Hc _]%andb_prop ->. Qed.

Lemma parse_usize_digits ds :
  ds ≠ [] → forallb is_digit ds = true →
  parse_usize (string_of ds) =
    if decide (number ds ≤ usize_MAX) then Ok (number ds)
    else Err ParseIntError.PosOverflow.
Proof.
  intros Hne Hds. rewrite parse_usize_bytes, bytes_of_string_of.
  destruct ds as [|c ds]; [done|].
  rewrite decide_False by (pose proof (digits_not_sign _ _ Hds); tauto).
  by apply parse_ref_digits.
Qed.

Lemma digits_of_S fuel n acc :
  digits_of (S fuel) n acc =
    if n <? 10 then digit_char (n mod 10) :: acc
    else digits_of fuel (n / 10) (digit_char (n mod 10) :: acc).
Proof. done. Qed.

(** The digits that [digits_of] puts before [acc] denote [n]. *)
Lemma digits_of_spec fuel n acc :
  n < 2 ^ N.of_nat fuel →
  ∃ ds, digits_of (S fuel) n acc = ds ++ acc ∧ ds ≠ [] ∧
        forallb is_digit ds = true ∧
        ∀ r, number_from r ds = r * 10 ^ N.of_nat (length ds) + n.
Proof.
  revert n acc; induction fuel as [|fuel IH]; intros n acc Hn;
    rewrite digits_of_S; destruct (N.ltb_spec n 10) as [Hlt|Hge];
    try (change (2 ^ N.of_nat 0) with 1 in Hn; lia).
  1,2: exists [digit_char (n mod 10)];
    pose proof (to_digit_digit_char (n mod 10)) as Hd;
    rewrite N.mod_small in * by done; split_and!; try done;
    [simpl; by erewrite is_digit_Some by eauto
    |intros r; rewrite (number_from_cons _ _ _ n) by auto; simpl; lia].
  destruct (IH (n / 10) (digit_char (n mod 10) :: acc)) as (ds & -> & ? & Hds & Hnum).
  { rewrite Nat2N.inj_succ, N.pow_succ_r' in Hn.
    apply N.Div0.div_lt_upper_bound. lia. }
  pose proof (to_digit_digit_char (n mod 10) ltac:(apply N.mod_lt; lia)) as Hd.
  exists (ds ++ [digit_char (n mod 10)]).
  rewrite <-app_assoc, forallb_app, Hds; simpl. erewrite is_digit_Some by eauto.
  split_and!; [done | by destruct ds | done |]. intros r.
  rewrite number_from_app, (number_from_cons _ _ _ _ Hd), Hnum, length_app; simpl.
  rewrite Nat2N.inj_add, N.pow_add_r. pose proof (N.div_mod n 10). lia.
Qed.

Lemma decimal_digits n :
  ∃ ds, decimal n = string_of ds ∧ ds ≠ [] ∧
        forallb is_digit ds = true ∧ number ds = n.
Proof.
  destruct (digits_of_spec (N.to_nat (N.size n)) n []) as (ds & Hds & ? & ? & Hnum).
  { rewrite N2Nat.id. apply N.size_gt. }
  exists ds. unfold decimal, number. rewrite Hds, app_nil_r, Hnum.
  split_and!; [done..|lia].
Qed.

End parse_lemmas.

(** ** Theorems *)

Lemma bytes_of_split_space s :
  bytes_of <$> split_space s = split_on " "%char (bytes_of s).
Proof.
  unfold split_space. rewrite <-list_fmap_compose.
  rewrite <-(list_fmap_id (split_on _ _)) at 2.
  apply list_fmap_ext. intros _ w _. apply bytes_of_string_of.
Qed.

Lemma split_space_length s :
  length (split_space s) = S (length (filter (" "%char =.) (bytes_of s))).
Proof.
  rewrite <-(length_fmap bytes_of), bytes_of_split_space.
  apply split_on_length.
Qed.

(** A line with one space has two pieces. *)
Lemma split_space_two s w1 w2 :
  bytes_of s = w1 ++ " "%char :: w2 → " "%char ∉ w1 → " "%char ∉ w2 →
  split_space s = [string_of w1; string_of w2].
Proof.
  intros Hs Hw1 Hw2. unfold split_space.
  by rewrite Hs, split_on_app_sep, split_on_notin.
Qed.

Lemma strings_of_bytes_of (ws : list string) :
  string_of <$> (bytes_of <$> ws) = ws.
Proof.
  induction ws as [|w ws IH]; [done|].
  by rewrite !fmap_cons, string_of_bytes_of, IH.
Qed.

(** C28: [split(' ')] cuts the line at every single space and nowhere else:
    joining the pieces with one space between neighbours gives the line
    back, no piece holds a space, and there is one piece more than there
    are spaces, so two pieces exactly when the line has one space. *)
Theorem split_space_spec s :
  join " " (bytes_of <$> split_space s) = bytes_of s ∧
  Forall (λ w, " "%char ∉ bytes_of w) (split_space s) ∧
  length (split_space s) = S (length (filter (" "%char =.) (bytes_of s))).
Proof.
  split_and!.
  - rewrite bytes_of_split_space. apply split_on_join.
  - apply (Forall_fmap bytes_of (λ w, " "%char ∉ w)).
    rewrite bytes_of_split_space.
    apply split_on_no_sep.
  - apply split_space_length.
Qed.

(** C38: the pieces are determined by the line: a line made by joining
    pieces free of spaces with single spaces splits into those pieces,
    empty pieces included (two spaces in a row give an empty piece). *)
Theorem split_space_join ws :
  ws ≠ [] → Forall (λ w, " "%char ∉ bytes_of w) ws →
  split_space (string_of (join " " (bytes_of <$> ws))) = ws.
Proof.
  intros Hne Hws. unfold split_space.
  rewrite bytes_of_string_of, join_split_on.
  - apply strings_of_bytes_of.
  - by destruct ws.
  - by apply (Forall_fmap bytes_of (λ w, " "%char ∉ w)).
Qed.

(** C29: [trim] removes White_Space characters from both ends and all of
    them: the string is a sequence of White_Space characters, then the
    result, then a sequence of White_Space characters, and the result
    neither starts nor ends with one (the bound on the number of characters
    stripped, the length of the string, is never reached with characters
    left to strip). *)
Theorem trim_spec s :
  ∃ before after,
    bytes_of s = concat before ++ bytes_of (trim s) ++ concat after ∧
    Forall (.∈ White_Space) before ∧ Forall (.∈ White_Space) after ∧
    strip_one White_Space (bytes_of (trim s)) = None ∧
    strip_one (reverse <$> White_Space) (reverse (bytes_of (trim s))) = None.
Proof.
  unfold trim, trim_end_bytes, trim_start_bytes. rewrite bytes_of_string_of.
  set (l := bytes_of s). set (t := strip_start White_Space (length l) l).
  destruct (strip_start_removed White_Space (length l) l) as (ps & Hps & Hl).
  destruct (strip_start_removed (reverse <$> White_Space) (length t) (reverse t))
    as (qs & Hqs & Ht).
  pose proof White_Space_nonempty as [Hne Hner].
  pose proof (strip_start_done _ (length l) l Hne (Nat.le_refl _)) as Hstart.
  pose proof (strip_start_done _ (length t) (reverse t) Hner) as Hend.
  rewrite length_reverse in Hend. specialize (Hend (Nat.le_refl _)).
  fold t in Hl, Hstart. set (e := strip_start _ _ (reverse t)) in *.
  apply (f_equal reverse) in Ht. rewrite reverse_involutive, reverse_app in Ht.
  exists ps, (reverse (reverse <$> qs)).
  rewrite reverse_involutive, <-reverse_concat.
  split_and!; [by rewrite <-Ht | done | | | done].
  - apply Forall_reverse, Forall_fmap. eapply Forall_impl; [exact Hqs|].
    intros q (p & -> & Hp)%list_elem_of_fmap. simpl. by rewrite reverse_involutive.
  - apply strip_one_None. rewrite strip_one_None in Hstart.
    eapply Forall_impl; [exact Hstart|]. intros p Hp Hpre. apply Hp.
    rewrite Ht. by apply prefix_app_r.
Qed.

Section parse_theorems.
Context `{Target}.
Local Open Scope N_scope.

Lemma parse_usize_decimal_Ok n :
  n ≤ usize_MAX → parse_usize (decimal n) = Ok n.
Proof.
  intros Hn. destruct (decimal_digits n) as (ds & -> & Hne & Hds & <-).
  by rewrite parse_usize_digits, decide_True.
Qed.

(** C27: [parse::<usize>] reads back what is written in decimal: parsing
    the decimal digits of a number returns the number when it fits [usize]
    and the error [PosOverflow] when it does not. *)
Theorem parse_usize_decimal n :
  parse_usize (decimal n) =
    if decide (n ≤ usize_MAX) then Ok n else Err ParseIntError.PosOverflow.
Proof.
  destruct (decimal_digits n) as (ds & -> & Hne & Hds & <-).
  by apply parse_usize_digits.
Qed.

(** C11: [parse::<usize>] returns [Ok(n)] exactly for the strings made of
    an optional [+] and at least one ASCII digit, nothing else (no space,
    no [-], no line feed), whose digits denote [n] and [n] fits [usize]. *)
Theorem parse_usize_Ok_iff s n :
  parse_usize s = Ok n ↔
  ∃ ds, (bytes_of s = ds ∨ bytes_of s = "+"%char :: ds) ∧ ds ≠ [] ∧
        forallb is_digit ds = true ∧ number ds = n ∧ n ≤ usize_MAX.
Proof.
  rewrite parse_usize_bytes. destruct (bytes_of s) as [|c ds] eqn:Hs.
  { split; [done|]. by intros (ds & [<- | ?] & ? & _). }
  case_decide as Hc; rewrite parse_ref_Ok; unfold number.
  - destruct Hc as [-> Hne]. split; [by eauto 10|].
    intros (ds' & [<- | [= <-]] & _ & Hds & Hn); [done | by auto].
  - split; [intros (? & ? & ?); exists (c :: ds); by auto 10|].
    intros (ds' & [<- | [= -> <-]] & Hne & Hds & Hn); [done | tauto].
Qed.

(** C37: a string of digits that denotes a number above [usize::MAX] is
    refused with [PosOverflow]: no wrap-around, no truncation. *)
Theorem parse_usize_overflow ds :
  forallb is_digit ds = true → usize_MAX < number ds →
  parse_usize (string_of ds) = Err ParseIntError.PosOverflow.
Proof.
  intros Hds Hn. destruct ds as [|c ds]; [unfold number in Hn; simpl in Hn; lia|].
  rewrite parse_usize_digits by done. rewrite decide_False; [done | lia].
Qed.

End parse_theorems.

(** ** Worked examples *)

Example split_space_examples :
  split_space "0 1" = ["0"; "1"] ∧
  split_space "1 1 1" = ["1"; "1"; "1"] ∧
  split_space "1  2" = ["1"; ""; "2"] ∧
  split_space " 1 2" = [""; "1"; "2"] ∧
  split_space "12" = ["12"] ∧
  split_space "" = [""].
Proof. by vm_compute. Qed.

Example trim_examples :
  trim ("2" +:+ LF) = "2" ∧
  trim (String (byte 9) " 7 " +:+ String (byte 13) LF) = "7" ∧
  trim "1 2" = "1 2" ∧
  trim " " = "".
Proof. by vm_compute. Qed.

Example parse_usize_examples :
  parse_usize (H := target64) "18446744073709551615" = Ok 18446744073709551615%N ∧
  parse_usize (H := target64) "18446744073709551616"
    = Err ParseIntError.PosOverflow ∧
  parse_usize (H := target32) "4294967296" = Err ParseIntError.PosOverflow ∧
  parse_usize (H := target64) "+7" = Ok 7%N ∧
  parse_usize (H := target64) "007" = Ok 7%N ∧
  parse_usize (H := target64) "-1" = Err ParseIntError.InvalidDigit ∧
  parse_usize (H := target64) "+" = Err ParseIntError.InvalidDigit ∧
  parse_usize (H := target64) "a" = Err ParseIntError.InvalidDigit ∧
  parse_usize (H := target64) "1 " = Err ParseIntError.InvalidDigit ∧
  parse_usize (H := target64) "" = Err ParseIntError.Empty.
Proof. by vm_compute. Qed.

(** ** Witnesses *)

Lemma split_space_join_witness :
  split_space (string_of (join " " (bytes_of <$> ["1"; ""; "2"])))
  = ["1"; ""; "2"].
Proof.
  apply split_space_join; [done|].
  by apply (bool_decide_unpack _).
Defined.

Lemma parse_usize_overflow_witness :
  parse_usize (H := target32) (string_of (bytes_of "4294967296"))
  = Err ParseIntError.PosOverflow.
Proof.
  apply (parse_usize_overflow (H := target32)); by vm_compute.
Defined.
