(* ===== verification/Game.v ===== *)
(** * Game: the turn loop of [main]

    [main] (lines 121-174) owns the board, the player to move and the state
    of the game ([Rules.Game]), reads lines from the console and prints to
    it.  The console is modelled by its two ends: the results of the
    successive calls of [stdin.read_line] are a list of [ReadLine] values,
    and the calls of [println!] append the text printed to [stdout].

    - [iteration] is the body of the [while let] loop for one result of
      [read_line]: it prints the board and the prompt, and [answer] does
      what follows the read; every [continue] of the source is a branch
      that returns the state with only [stdout] extended.
    - [main_loop] runs [iteration] while the state is [InProgress] and
      results of [read_line] remain; [main] adds the final [println!].  A
      run over a finite list of read results either leaves the loop
      ([Exited]) or is still in it when the list is used up ([Waiting]):
      the board and the prompt of the next iteration are printed and the
      program is blocked in [read_line].

    The theorems: an iteration never panics and either leaves the game
    untouched or makes one step of [Rules.play]; hence every state of the
    loop is a position of the game by the rules, the message printed at
    exit names the true result in the words of the source, and a game
    takes at most nine accepted lines.  The error branches are stated one
    by one: a wrong number of pieces, a piece that is not a number, a
    move that [changeState] refuses; each prints its message and leaves
    the game as it was.  At the end of input and on read errors the loop
    does not exit: it goes round for ever. *)

From Stdlib Require Import Ascii String.
From stdpp Require Import base decidable list numbers relations strings.
From S2P Require Import Prelude Cell Board Rules Render Text.

(** ** The console *)

(** What a call of [stdin.read_line(&mut userInput)] produces: [Ok(_)] with
    the line in [userInput], line terminator included (the empty string at
    the end of input), or [Err(_)]. *)
Inductive ReadLine : Type :=
| Line (userInput : string)
| ReadError.

(** The state of [main]: the game, and what has been printed, one entry
    per [println!]. *)
Record Main : Type := {
  game : Game;
  stdout : list string;
}.

Definition start : Main := {| game := initial; stdout := [] |}.

(** The state of [main] with game [g] and nothing printed yet. *)
Definition resume (g : Game) : Main := {| game := g; stdout := [] |}.

(** The state [m] with [out] printed before what [m] has printed. *)
Definition printed_after (out : list string) (m : Main) : Main :=
  {| game := game m; stdout := out ++ stdout m |}.

(** [println!("..")] of a literal. *)
Definition println (s : string) (m : Main) : Main :=
  {| game := game m; stdout := stdout m ++ [s] |}.

(** [println!("{a}")]. *)
Definition println_fmt {A} `{Display A} (a : A) (m : Main) : Run Main :=
  s ← fmt a; mret (println s m).

(** [println!("{e1}, {e2}")]. *)
Definition println_fmt2 {A} `{Display A} (a1 a2 : A) (m : Main) : Run Main :=
  s1 ← fmt a1; s2 ← fmt a2; mret (println (s1 +:+ ", " +:+ s2) m).

(** The [match playerState] that prints the prompt. *)
Definition prompt (m : Main) : Run Main :=
  match playerState (game m) with
  | BoardCell.X => mret (println "Player 1: " m)
  | BoardCell.O => mret (println "Player 2: " m)
  | BoardCell.None => Panic Unreachable
  end.

Section main.
Context `{Target}.

(** The [match board.changeState(playerState, (x, y))] and the switch of
    the player that follows it. *)
Definition turn (m : Main) (x y : usize) : Run Main :=
  '(board', result) ←
    TicTacToeBoard.changeState (board (game m)) (playerState (game m)) (x, y);
  match result with
  | Ok state =>
      playerState' ← switch_player (playerState (game m));
      mret {| game := {| board := board';
                         playerState := playerState';
                         gameState := state |};
              stdout := stdout m |}
  | Err e =>
      println_fmt e {| game := {| board := board';
                                  playerState := playerState (game m);
                                  gameState := gameState (game m) |};
                       stdout := stdout m |}
  end.

(** What the body of the loop does with the result of [read_line]: the
    [if stdin.read_line(&mut userInput).is_ok() { .. }]. *)
Definition answer (m : Main) (r : ReadLine) : Run Main :=
  match r with
  | ReadError => mret m
  | Line userInput =>
      let args := split_space userInput in
      if negb (length args =? 2)%nat
      then mret (println "Incorrect number of arguments" m)
      else
        arg0 ← index args 0;
        arg1 ← index args 1;
        match parse_usize (trim arg0), parse_usize (trim arg1) with
        | Ok x, Ok y => turn m x y
        | Err e, Ok _ => println_fmt e m
        | Ok _, Err e => println_fmt e m
        | Err e1, Err e2 => println_fmt2 e1 e2 m
        end
  end.

(** The body of the loop, given the result of [read_line]: the board and
    the prompt are printed before the line is read. *)
Definition iteration (m : Main) (r : ReadLine) : Run Main :=
  m ← println_fmt (board (game m)) m;
  m ← prompt m;
  answer m r.

(** The loop over the results of [read_line] that are given: it returns
    the state in which it stopped and the results it did not use.  When
    the results are used up with the game in progress, that state is the
    one at the head of the loop, before the iteration that has nothing to
    read; [main] adds what that iteration prints before it reads. *)
Fixpoint main_loop (stdin : list ReadLine) (m : Main)
  : Run (Main * list ReadLine) :=
  match gameState (game m) with
  | GameState.InProgress =>
      match stdin with
      | [] => mret (m, [])
      | r :: stdin' => m' ← iteration m r; main_loop stdin' m'
      end
  | GameState.End _ => mret (m, stdin)
  end.

(** How a run over a finite list of read results stands at its end: it
    has left the loop and printed the result, or it has printed the board
    and the prompt and is in [read_line], for which the list holds no
    result. *)
Inductive Exit : Type :=
| Exited (m : Main)
| Waiting (m : Main).

Definition main (stdin : list ReadLine) : Run Exit :=
  '(m, _) ← main_loop stdin start;
  match gameState (game m) with
  | GameState.InProgress =>
      Waiting <$> (m ← println_fmt (board (game m)) m; prompt m)
  | gameState => Exited <$> println_fmt gameState m
  end.

End main.

(** ** One iteration *)

(** The prompt printed for the player to move. *)
Definition prompt_text (c : BoardCell) : string :=
  match c with
  | BoardCell.O => "Player 2: "
  | _ => "Player 1: "
  end.

(** The two lines every iteration prints first. *)
Definition header (g : Game) : list string :=
  [render (board g); prompt_text (playerState g)].

Section iteration_lemmas.
Context `{Target}.
Implicit Types (m : Main) (g : Game) (r : ReadLine) (x y : usize).

Lemma println_fmt_returns {A} `{Display A} (a : A) m s :
  fmt a = Return s → println_fmt a m = Return (println s m).
Proof. unfold println_fmt. by intros ->. Qed.

Lemma BoardError_fmt_total (e : BoardError) : ∃ s, fmt e = Return s.
Proof. destruct e; eauto. Qed.

Lemma ParseIntError_fmt_total (e : ParseIntError) : ∃ s, fmt e = Return s.
Proof. destruct e; eauto. Qed.

Lemma GameState_fmt_total (s : GameState) : ∃ t, fmt s = Return t.
Proof. destruct s as [|[]]; eauto. Qed.

Lemma prompt_returns m :
  is_mark (playerState (game m)) = true →
  prompt m = Return (println (prompt_text (playerState (game m))) m).
Proof. unfold prompt. by destruct (playerState (game m)). Qed.

(** The two prints that open an iteration. *)
Lemma iteration_header m :
  game_inv (game m) →
  (m1 ← println_fmt (board (game m)) m; prompt m1)
  = Return {| game := game m; stdout := stdout m ++ header (game m) |}.
Proof.
  intros Hinv.
  rewrite (println_fmt_returns _ _ _ (fmt_render _ (inv_wf _ Hinv))); simpl.
  rewrite prompt_returns by apply Hinv. unfold println; simpl.
  by rewrite <-app_assoc.
Qed.

Lemma refused_game g b' :
  b' = board g →
  {| board := b'; playerState := playerState g; gameState := gameState g |} = g.
Proof. intros ->. by destruct g. Qed.

(** A call of [changeState] with parsed coordinates: the move is refused
    with a message and the game stays as it is, or it is accepted and the
    game makes a step. *)
Lemma turn_returns m x y :
  game_inv (game m) → gameState (game m) = GameState.InProgress →
  ∃ m', turn m x y = Return m' ∧
    ((game m' = game m ∧ ∃ s, stdout m' = stdout m ++ [s]) ∨
     (play (game m) (game m') ∧ stdout m' = stdout m)).
Proof.
  intros Hinv Hprog. unfold turn.
  destruct (TicTacToeBoard.changeState _ _ _) as [[b' [s|e]]|p] eqn:Hret;
    rewrite changeState_ref_eq in Hret by apply Hinv; [..|done]; simpl.
  - rewrite switch_player_mark by apply Hinv; simpl. eexists; split; [done|].
    right; simpl; split; [|done].
    eapply play_accept; [done| |by apply switch_player_mark, Hinv].
    rewrite changeState_ref_eq by apply Hinv. done.
  - destruct (BoardError_fmt_total e) as [s Hs].
    erewrite println_fmt_returns by done. eexists; split; [done|].
    left; simpl. split; [|by eauto]. apply refused_game.
    rewrite <-changeState_ref_eq in Hret by apply Hinv.
    by apply changeState_Err_inv in Hret.
Qed.

(** How an iteration that prints the [header], then [out], and ends in
    state [m'] stands to the state [m] it started in. *)
Definition iterated (m : Main) (out : list string) (m' : Main) : Prop :=
  stdout m' = stdout m ++ header (game m) ++ out ∧
  ((game m' = game m ∧ length out ≤ 1) ∨
   (play (game m) (game m') ∧ out = [])).

Lemma iterated_message m s :
  iterated m [s]
    (println s {| game := game m; stdout := stdout m ++ header (game m) |}).
Proof.
  split; simpl; [by rewrite <-app_assoc|]. left. split; [done | simpl; lia].
Qed.

Lemma iterated_silent m :
  iterated m [] {| game := game m; stdout := stdout m ++ header (game m) |}.
Proof. split; simpl; [done|]. left. split; [done | simpl; lia]. Qed.

(** What one iteration does: it prints the board and the prompt, then at
    most one message, and the game is unchanged; or it prints the board and
    the prompt and the game makes a step. *)
Lemma iteration_returns m r :
  game_inv (game m) → gameState (game m) = GameState.InProgress →
  ∃ m' out, iteration m r = Return m' ∧ iterated m out m'.
Proof.
  intros Hinv Hprog. unfold iteration, answer.
  rewrite <-bind_assoc, iteration_header by done.
  set (m1 := {| game := game m; stdout := stdout m ++ header (game m) |}).
  rewrite bind_Return. destruct r as [userInput|];
    [|by eauto using iterated_silent].
  destruct (negb _) eqn:Hlen; [by eauto using iterated_message|].
  apply negb_false_iff, Nat.eqb_eq in Hlen.
  destruct (index_lt (split_space userInput) 0%N) as [a0 ->];
    [rewrite Hlen; lia|].
  destruct (index_lt (split_space userInput) 1%N) as [a1 ->];
    [rewrite Hlen; lia|].
  simpl. destruct (parse_usize (trim a0)) as [x|e0],
    (parse_usize (trim a1)) as [y|e1].
  - destruct (turn_returns m1 x y) as (m' & -> & Hcase); [done..|].
    destruct Hcase as [[Hgame [s Hout]] | [Hplay Hout]].
    + exists m', [s]. split; [done|].
      split; [rewrite Hout; simpl; by rewrite <-app_assoc|].
      left. split; [done | simpl; lia].
    + exists m', []. split; [done|].
      split; [by rewrite Hout, app_nil_r | by right].
  - destruct (ParseIntError_fmt_total e1) as [s Hs].
    erewrite println_fmt_returns by done. eauto using iterated_message.
  - destruct (ParseIntError_fmt_total e0) as [s Hs].
    erewrite println_fmt_returns by done. eauto using iterated_message.
  - destruct (ParseIntError_fmt_total e0) as [s0 Hs0],
      (ParseIntError_fmt_total e1) as [s1 Hs1].
    unfold println_fmt2. rewrite Hs0, Hs1; simpl.
    eauto using iterated_message.
Qed.

(** [answer] adds to what has been printed and does not read it: it can
    be run from the state [resume g], with the game and nothing printed,
    and what it prints put after what was printed before. *)
Lemma turn_frame m x y :
  turn m x y = printed_after (stdout m) <$> turn (resume (game m)) x y.
Proof.
  unfold turn, println_fmt, printed_after, resume; cbn [game stdout].
  destruct (TicTacToeBoard.changeState _ _ _) as [[b' [s|e]]|p]; simpl;
    [destruct (switch_player _) | destruct e |]; simpl;
    by rewrite ?app_nil_r.
Qed.

Lemma answer_frame m r :
  answer m r = printed_after (stdout m) <$> answer (resume (game m)) r.
Proof.
  unfold answer, printed_after.
  destruct r as [userInput|]; [|destruct m; simpl; by rewrite app_nil_r].
  cbn zeta. destruct (negb _); [done|].
  destruct (index _ 0) as [arg0|]; [|done].
  destruct (index _ 1) as [arg1|]; [|done]. simpl.
  destruct (parse_usize (trim arg0)) as [x|[]],
    (parse_usize (trim arg1)) as [y|[]]; try done.
  apply turn_frame.
Qed.

Lemma iteration_resume m r :
  game_inv (game m) →
  iteration m r
  = printed_after (stdout m ++ header (game m))
      <$> answer (resume (game m)) r.
Proof.
  intros Hinv. unfold iteration.
  by rewrite <-bind_assoc, iteration_header, bind_Return, answer_frame.
Qed.

Lemma answer_returns g r :
  game_inv g → gameState g = GameState.InProgress →
  ∃ m', answer (resume g) r = Return m' ∧ (game m' = g ∨ play g (game m')).
Proof.
  intros Hinv Hprog.
  destruct (iteration_returns (resume g) r) as (m1 & out & Hit & _ & Hcase);
    [done..|].
  rewrite iteration_resume in Hit by done.
  change (game (resume g)) with g in Hit.
  destruct (answer (resume g) r) as [m'|]; [|done]. injection Hit as <-.
  exists m'. split; [done|]. destruct Hcase as [[? _] | [? _]]; auto.
Qed.

End iteration_lemmas.

(** ** The loop *)

Section loop_lemmas.
Context `{Target}.
Implicit Types (m : Main) (g : Game) (r : ReadLine) (stdin : list ReadLine).

(** How a run of the loop from [m] over [stdin] that stopped in [m'] with
    [rest] unread stands: it made [n] steps of the game, one line at least
    per step; it only added to the output; and it stopped because the game
    ended or because nothing was left to read. *)
Record looped (m : Main) (stdin : list ReadLine) (m' : Main)
    (rest : list ReadLine) (n : nat) : Prop := {
  looped_steps : nsteps play n (game m) (game m');
  looped_lines : n + length rest ≤ length stdin;
  looped_stdout : stdout m `prefix_of` stdout m';
  looped_stop : gameState (game m') = GameState.InProgress → rest = [];
}.

Lemma main_loop_ended stdin m c :
  gameState (game m) = GameState.End c →
  main_loop stdin m = Return (m, stdin).
Proof. intros Hend. destruct stdin; simpl; by rewrite Hend. Qed.

Lemma main_loop_returns stdin m :
  rtc play initial (game m) →
  ∃ m' rest n, main_loop stdin m = Return (m', rest) ∧ looped m stdin m' rest n.
Proof.
  revert m. induction stdin as [|r stdin IH]; intros m Hreach.
  { exists m, [], 0. split; [simpl; by destruct (gameState (game m))|].
    split; [constructor | done | done | done]. }
  destruct (gameState (game m)) as [|c] eqn:Hstate.
  2: { exists m, (r :: stdin), 0. split; [by eapply main_loop_ended|].
       split; [constructor | done | done | congruence]. }
  destruct (iteration_returns m r) as (m1 & out & Hiter & Hout & Hcase);
    [by apply rtc_play_inv | done |].
  simpl. rewrite Hstate, Hiter; simpl.
  assert (stdout m `prefix_of` stdout m1) as Hpre
    by (rewrite Hout; by apply prefix_app_r).
  destruct Hcase as [[Hgame _] | [Hplay _]].
  - destruct (IH m1) as (m' & rest & n & -> & Hn); [by rewrite Hgame|].
    destruct Hn as [Hsteps Hlines Hstdout Hstop]. rewrite Hgame in Hsteps.
    exists m', rest, n. split; [done|].
    split; [done | simpl; lia | by etrans | done].
  - destruct (IH m1) as (m' & rest & n & -> & Hn); [by eapply rtc_r|].
    destruct Hn as [Hsteps Hlines Hstdout Hstop].
    exists m', rest, (S n). split; [done|].
    split; [by eapply nsteps_l | simpl; lia | by etrans | done].
Qed.

(** What [main] returns on [stdin], from the state in which its loop
    stopped. *)
Lemma main_returns stdin :
  ∃ m rest n,
    main_loop stdin start = Return (m, rest) ∧ looped start stdin m rest n ∧
    match gameState (game m) with
    | GameState.InProgress =>
        main stdin
        = Return (Waiting {| game := game m;
                             stdout := stdout m ++ header (game m) |})
    | GameState.End c =>
        ∃ s, fmt (GameState.End c) = Return s ∧
             main stdin = Return (Exited (println s m))
    end.
Proof.
  destruct (main_loop_returns stdin start) as (m & rest & n & Hloop & Hlooped);
    [constructor|].
  exists m, rest, n. split_and!; [done..|]. unfold main. rewrite Hloop; simpl.
  pose proof (rtc_play_inv _ (rtc_nsteps_2 _ _ _ (looped_steps _ _ _ _ _ Hlooped)))
    as Hinv.
  destruct (gameState (game m)) as [|c] eqn:Hstate.
  - by rewrite iteration_header.
  - destruct (GameState_fmt_total (GameState.End c)) as [s Hs].
    exists s. by erewrite println_fmt_returns.
Qed.

(** The state in which [main] exits: the game has ended, by the rules, and
    the last line printed is the text of its state. *)
Lemma main_exited stdin m :
  main stdin = Return (Exited m) →
  game_inv (game m) ∧ status (board (game m)) ≠ GameState.InProgress ∧
  ∃ s, last (stdout m) = Some s ∧ fmt (status (board (game m))) = Return s.
Proof.
  destruct (main_returns stdin) as (m0 & rest & n & _ & Hlooped & Hmain).
  pose proof (rtc_play_inv _ (rtc_nsteps_2 _ _ _ (looped_steps _ _ _ _ _ Hlooped)))
    as Hinv.
  destruct (gameState (game m0)) as [|c] eqn:Hstate;
    [by rewrite Hmain | destruct Hmain as (s & Hs & ->)].
  intros [= <-]; simpl. rewrite <-(inv_status _ Hinv), Hstate.
  split_and!; [done..|]. exists s. by rewrite last_snoc.
Qed.

(** A read error, or a line that is not two pieces, leaves the game as it
    is: the loop goes round. *)
Definition idle (r : ReadLine) : Prop :=
  match r with
  | ReadError => True
  | Line userInput => length (split_space userInput) ≠ 2
  end.

Lemma iteration_idle m r :
  game_inv (game m) → idle r →
  ∃ m', iteration m r = Return m' ∧ game m' = game m.
Proof.
  intros Hinv Hidle. unfold iteration, answer.
  rewrite <-bind_assoc, iteration_header by done. rewrite bind_Return.
  destruct r as [userInput|]; simpl in *; [|by eauto].
  apply Nat.eqb_neq in Hidle as ->. by eauto.
Qed.

Lemma answer_idle g r :
  idle r → ∃ m', answer (resume g) r = Return m' ∧ game m' = g.
Proof.
  intros Hidle. unfold answer.
  destruct r as [userInput|]; simpl in *; [|by eauto].
  apply Nat.eqb_neq in Hidle as ->. by eauto.
Qed.

Lemma main_loop_idle stdin m :
  game_inv (game m) → gameState (game m) = GameState.InProgress →
  Forall idle stdin →
  ∃ m', main_loop stdin m = Return (m', []) ∧ game m' = game m.
Proof.
  intros Hinv Hprog Hidle. revert m Hinv Hprog.
  induction Hidle as [|r stdin Hr _ IH]; intros m Hinv Hprog; simpl.
  { rewrite Hprog. by eauto. }
  destruct (iteration_idle m r) as (m1 & -> & Hgame); [done..|].
  rewrite Hprog; simpl.
  destruct (IH m1) as (m' & -> & Hgame'); [by rewrite Hgame..|].
  exists m'. split; [done | congruence].
Qed.

Lemma main_loop_app stdin1 stdin2 m m1 :
  main_loop stdin1 m = Return (m1, []) →
  gameState (game m1) = GameState.InProgress →
  main_loop (stdin1 ++ stdin2) m = main_loop stdin2 m1.
Proof.
  revert m. induction stdin1 as [|r stdin1 IH]; intros m; simpl.
  - destruct (gameState (game m)); by intros [= ->].
  - destruct (gameState (game m)); [|done].
    destruct (iteration m r) as [m2|]; simpl; [|done]. apply IH.
Qed.

End loop_lemmas.

(** ** Theorems *)

(** A line as the terminal delivers it: the text typed and a line feed. *)
Definition typed (s : string) : ReadLine := Line (s +:+ LF).

(** The results of [read_line] once the input has ended: [Ok(0)] with an
    empty line, or an error. *)
Definition at_end (r : ReadLine) : Prop := r = Line "" ∨ r = ReadError.

Section main_theorems.
Context `{Target}.
Implicit Types (m : Main) (g : Game) (r : ReadLine) (stdin : list ReadLine).

(** C24: one iteration of the loop of [main], from a position reached by
    accepted moves and in progress, never panics, whatever [read_line]
    returned; it only adds to the output, and either leaves the board, the
    player and the state as they were (the line was refused: wrong number
    of pieces, not a number, out of range, occupied cell, read error) or
    makes exactly one step of the game. *)
Theorem iteration_sound m r :
  rtc play initial (game m) → gameState (game m) = GameState.InProgress →
  ∃ m', iteration m r = Return m' ∧
        stdout m `prefix_of` stdout m' ∧
        (game m' = game m ∨ play (game m) (game m')).
Proof.
  intros Hinv%rtc_play_inv Hprog.
  destruct (iteration_returns m r) as (m' & out & Hiter & Hout & Hcase);
    [done..|].
  exists m'. split_and!; [done | rewrite Hout; by apply prefix_app_r |].
  destruct Hcase as [[? _] | [? _]]; auto.
Qed.

(** C13: [main] never panics, whatever is read: no [unreachable!()] is
    reached, no index leaves the vector of pieces or the board, no [usize]
    operation overflows. *)
Theorem main_no_panic stdin : no_panic (main stdin) = true.
Proof.
  destruct (main_returns stdin) as (m & rest & n & _ & _ & Hmain).
  destruct (gameState (game m)); [by rewrite Hmain|].
  destruct Hmain as (s & _ & ->). done.
Qed.

(** C7: the message [main] prints when it exits names the true result:
    the last line of output is the text of the status of the final board
    by the rules, and that status is an ended one: "Player 1 wins!" when
    [X] has a line, "Player 2 wins!" when [O] has one, "The game was a
    draw" when the board is full with no line. *)
Theorem main_exit_message stdin m :
  main stdin = Return (Exited m) →
  ∃ msg, last (stdout m) = Some msg ∧
         fmt (status (board (game m))) = Return msg ∧
         status (board (game m)) ≠ GameState.InProgress.
Proof.
  intros (_ & Hended & s & Hlast & Hs)%main_exited.
  exists s. by split_and!.
Qed.

(** C26: a game takes at most nine accepted lines: when the loop stops, the
    game has made at most nine steps, each step used a line of its own, and
    lines are left unread only if the game has ended. *)
Theorem main_loop_moves stdin m rest :
  main_loop stdin start = Return (m, rest) →
  ∃ n, nsteps play n initial (game m) ∧ n ≤ 9 ∧
       n + length rest ≤ length stdin ∧
       (rest ≠ [] → gameState (game m) ≠ GameState.InProgress).
Proof.
  destruct (main_loop_returns stdin start) as (m0 & rest0 & n & -> & Hloop);
    [constructor|].
  intros [= <- <-]. destruct Hloop as [Hsteps Hlines _ Hstop].
  exists n. split_and!; [done | by eapply nsteps_play_le_9 | done | auto].
Qed.

(** At the end of input the loop does not exit.  If the game is in
    progress when the lines given are used up, then however many more
    times [read_line] reports the end of input (an empty line) or an error,
    [main] is still in the loop with the same board, player and state; it
    never reaches the final [println!]. *)
Theorem main_end_of_input_loops stdin more m :
  main stdin = Return (Waiting m) → Forall at_end more →
  ∃ m', main (stdin ++ more) = Return (Waiting m') ∧ game m' = game m.
Proof.
  intros Hmain Hmore.
  destruct (main_returns stdin) as (m0 & rest & n & Hret & Hloop & Hm0).
  pose proof (rtc_play_inv _ (rtc_nsteps_2 _ _ _ (looped_steps _ _ _ _ _ Hloop)))
    as Hinv.
  destruct (gameState (game m0)) as [|c] eqn:Hstate;
    [|destruct Hm0 as (s & _ & Hm0); by rewrite Hm0 in Hmain].
  rewrite Hm0 in Hmain. injection Hmain as <-.
  rewrite (looped_stop _ _ _ _ _ Hloop Hstate) in Hret.
  destruct (main_loop_idle more m0) as (m' & Hidle & Hgame); [done..| |].
  { eapply Forall_impl; [done|]. by intros r [-> | ->]. }
  unfold main. rewrite (main_loop_app _ _ _ _ Hret Hstate), Hidle; simpl.
  rewrite Hgame, Hstate, <-Hgame, iteration_header by by rewrite Hgame.
  by eauto.
Qed.

(** The pieces of a line of two numbers in decimal and a line feed. *)
Lemma typed_numbers_args x y :
  ∃ arg0 arg1,
    split_space (decimal x +:+ " " +:+ decimal y +:+ LF) = [arg0; arg1] ∧
    trim arg0 = decimal x ∧ trim arg1 = decimal y.
Proof.
  destruct (decimal_digits x) as (dx & Hx & ? & Hdx & _),
    (decimal_digits y) as (dy & Hy & ? & Hdy & _).
  exists (string_of dx), (string_of (dy ++ bytes_of LF)).
  rewrite Hx, Hy, trim_digits, trim_digits_LF by done.
  split_and!; try done.
  apply split_space_two;
    [by autorewrite with run | by apply digits_no_space
    | by apply digits_LF_no_space].
Qed.

(** The answer to a line of two numbers that fit [usize]. *)
Lemma answer_numbers m x y :
  (x ≤ usize_MAX)%N → (y ≤ usize_MAX)%N →
  answer m (Line (decimal x +:+ " " +:+ decimal y +:+ LF)) = turn m x y.
Proof.
  intros Hx Hy. unfold answer.
  destruct (typed_numbers_args x y) as (arg0 & arg1 & -> & Htx & Hty).
  simpl. rewrite Htx, Hty, !parse_usize_decimal_Ok by done. done.
Qed.

(** C10: a line of two numbers in decimal separated by one space plays
    them: for all [x] and [y] that fit [usize], on the line "x y" ended by
    a line feed, the iteration prints the board and the prompt and calls
    [changeState] with the player to move and [(x, y)], [x] the column and
    [y] the row. *)
Theorem iteration_plays_line m x y :
  rtc play initial (game m) → (x ≤ usize_MAX)%N → (y ≤ usize_MAX)%N →
  iteration m (Line (decimal x +:+ " " +:+ decimal y +:+ LF))
  = turn {| game := game m; stdout := stdout m ++ header (game m) |} x y.
Proof.
  intros Hinv%rtc_play_inv Hx Hy. unfold iteration.
  rewrite <-bind_assoc, iteration_header, bind_Return by done.
  by apply answer_numbers.
Qed.

(** C25: a line that does not hold exactly one space is refused whatever
    else it holds: the iteration prints the board, the prompt and
    "Incorrect number of arguments", and the board, the player to move and
    the state stay as they were.  This covers three numbers, one number,
    the empty line, and two numbers separated by two spaces or by a tab. *)
Theorem iteration_wrong_count m userInput :
  rtc play initial (game m) →
  length (filter (" "%char =.) (bytes_of userInput)) ≠ 1 →
  iteration m (Line userInput)
  = Return {| game := game m;
              stdout := stdout m ++ header (game m)
                          ++ ["Incorrect number of arguments"] |}.
Proof.
  intros Hinv%rtc_play_inv Hcount. unfold iteration, answer.
  rewrite <-bind_assoc, iteration_header, bind_Return by done.
  rewrite split_space_length.
  destruct (Nat.eqb_spec (S (length (filter (" "%char =.) (bytes_of userInput)))) 2)
    as [?|_]; [lia|].
  unfold println; simpl. by rewrite <-app_assoc.
Qed.

(** C31: the line [main] prints when it exits is the announcement of the
    result of the final board, in these words: it is "Player 1 wins!"
    exactly when X has three in a line, "Player 2 wins!" exactly when O
    has, and "The game was a draw" exactly when neither has and no cell is
    empty. *)
Theorem main_exit_announces stdin m :
  main stdin = Return (Exited m) →
  (last (stdout m) = Some "Player 1 wins!"
   ↔ wins (board (game m)) BoardCell.X = true) ∧
  (last (stdout m) = Some "Player 2 wins!"
   ↔ wins (board (game m)) BoardCell.O = true) ∧
  (last (stdout m) = Some "The game was a draw"
   ↔ wins (board (game m)) BoardCell.X = false ∧
     wins (board (game m)) BoardCell.O = false ∧
     full (board (game m)) = true).
Proof.
  intros (Hinv & Hended & s & -> & Hs)%main_exited.
  pose proof (inv_one_winner _ Hinv) as Hone. unfold status in *.
  destruct (wins _ BoardCell.X), (wins _ BoardCell.O), (full _);
    try done; injection Hs as <-; intuition (done || discriminate).
Qed.

(** C32: a move that [changeState] refuses costs the player nothing but a
    message.  On a line of two numbers that fit [usize], when [changeState]
    returns an error for them (a coordinate above 2, or a cell that is
    taken), the iteration prints the board, the prompt and the text of that
    error, and nothing else changes: the board, the player to move and the
    state of the game are the ones before, so the next iteration asks the
    same player again. *)
Theorem iteration_refused_move m (x y : usize) b' e :
  rtc play initial (game m) → (x ≤ usize_MAX)%N → (y ≤ usize_MAX)%N →
  TicTacToeBoard.changeState (board (game m)) (playerState (game m)) (x, y)
  = Return (b', Err e) →
  iteration m (Line (decimal x +:+ " " +:+ decimal y +:+ LF))
  = Return {| game := game m;
              stdout := stdout m ++ header (game m) ++
                [match e with
                 | BoardError.OutOfBounds =>
                     "Invalid index, max range of x and y is 2"
                 | BoardError.AlreadyChanged =>
                     "You can't change your or a previous player's answer"
                 end] |}.
Proof.
  intros Hinv%rtc_play_inv Hx Hy Hret. unfold iteration.
  rewrite <-bind_assoc, iteration_header, bind_Return, answer_numbers by done.
  pose proof (changeState_Err_inv _ _ _ _ _ _ Hret) as ->.
  unfold turn; cbn [game stdout]. rewrite Hret; simpl.
  rewrite refused_game by done.
  destruct e; erewrite println_fmt_returns by done;
    unfold println; cbn [game stdout]; by rewrite <-app_assoc.
Qed.

(** C33: what an iteration does with a line of two pieces, on every
    outcome of the two parses.  The board and the prompt are printed; then
    two numbers are played by [turn]; one piece that is not a number prints
    the description of its parse error; two such pieces print both
    descriptions separated by a comma and a space; and on every parse
    error the board, the player to move and the state stay as they were. *)
Theorem iteration_two_pieces m userInput arg0 arg1 :
  rtc play initial (game m) → split_space userInput = [arg0; arg1] →
  let m1 := {| game := game m; stdout := stdout m ++ header (game m) |} in
  iteration m (Line userInput)
  = match parse_usize (trim arg0), parse_usize (trim arg1) with
    | Ok x, Ok y => turn m1 x y
    | Err e, Ok _ | Ok _, Err e =>
        Return (println (ParseIntError.description e) m1)
    | Err e1, Err e2 =>
        Return (println (ParseIntError.description e1 +:+ ", "
                         +:+ ParseIntError.description e2) m1)
    end.
Proof.
  intros Hinv%rtc_play_inv Hsplit m1. unfold iteration, answer.
  rewrite <-bind_assoc, iteration_header, bind_Return, Hsplit by done.
  simpl. by destruct (parse_usize (trim arg0)), (parse_usize (trim arg1)).
Qed.

End main_theorems.

(** ** Games played through [main] *)

Local Open Scope string_scope.

(** The lines a player types for a sequence of moves. *)
Definition lines_of (moves : list (usize * usize)) : list ReadLine :=
  (λ '(x, y), Line (decimal x +:+ " " +:+ decimal y +:+ LF)) <$> moves.

(** The state in which [main] exits or waits on the lines [stdin]. *)
Definition final (stdin : list ReadLine) : Main :=
  match main (H := target64) stdin with
  | Return (Exited m) | Return (Waiting m) => m
  | Panic _ => start
  end.

(** The three games of the specification, typed at the console: [main]
    exits with the boards and the states the rules give, and the last line
    it prints is "Player 1 wins!" for the row and for the diagonal and
    "The game was a draw" for the nine moves with no line. *)
Example main_plays_games :
  main (H := target64) (lines_of row_moves)
    = Return (Exited (final (lines_of row_moves))) ∧
  game (final (lines_of row_moves)) = won_row ∧
  last (stdout (final (lines_of row_moves))) = Some "Player 1 wins!" ∧
  main (H := target64) (lines_of diagonal_moves)
    = Return (Exited (final (lines_of diagonal_moves))) ∧
  game (final (lines_of diagonal_moves)) = won_diagonal ∧
  last (stdout (final (lines_of diagonal_moves))) = Some "Player 1 wins!" ∧
  main (H := target64) (lines_of draw_moves)
    = Return (Exited (final (lines_of draw_moves))) ∧
  game (final (lines_of draw_moves)) = drawn ∧
  last (stdout (final (lines_of draw_moves))) = Some "The game was a draw".
Proof. vm_compute. by split_and!. Qed.

(** ** Witnesses *)

Lemma iteration_sound_witness :
  ∃ m', iteration (H := target64) start (typed "1 1") = Return m' ∧
        stdout start `prefix_of` stdout m' ∧
        (game m' = game start ∨ play (H := target64) (game start) (game m')).
Proof. apply (iteration_sound (H := target64)); [constructor | done]. Defined.

Lemma main_exit_message_witness :
  ∃ msg, last (stdout (final (lines_of row_moves))) = Some msg ∧
         fmt (status (board (game (final (lines_of row_moves))))) = Return msg ∧
         status (board (game (final (lines_of row_moves)))) ≠ GameState.InProgress.
Proof.
  apply (main_exit_message (H := target64) (lines_of row_moves)).
  by vm_compute.
Defined.

(** The state and the unread lines with which the loop stops on [stdin]. *)
Definition stopped (stdin : list ReadLine) : Main * list ReadLine :=
  match main_loop (H := target64) stdin start with
  | Return p => p
  | Panic _ => (start, [])
  end.

Lemma main_loop_moves_witness :
  let stdin := (lines_of row_moves ++ [typed "2 2"])%list in
  ∃ n, nsteps (play (H := target64)) n initial (game (stopped stdin).1) ∧
       (n ≤ 9)%nat ∧
       (n + length (stopped stdin).2 ≤ length stdin)%nat ∧
       ((stopped stdin).2 ≠ [] →
        gameState (game (stopped stdin).1) ≠ GameState.InProgress).
Proof.
  apply (main_loop_moves (H := target64)
           (lines_of row_moves ++ [typed "2 2"])%list). by vm_compute.
Defined.

Lemma main_end_of_input_loops_witness :
  ∃ m', main (H := target64)
          ([typed "1 1"] ++ [Line ""; ReadError; Line ""])%list
          = Return (Waiting m') ∧
        game m' = game (final [typed "1 1"]).
Proof.
  apply (main_end_of_input_loops (H := target64)); [by vm_compute|].
  repeat constructor; by (left + right).
Defined.

Lemma iteration_plays_line_witness :
  iteration (H := target64) start (Line (decimal 1 +:+ " " +:+ decimal 2 +:+ LF))
  = turn (H := target64)
      {| game := game start; stdout := stdout start ++ header (game start) |}
      1%N 2%N.
Proof.
  apply (iteration_plays_line (H := target64)); [constructor | by vm_compute..].
Defined.

Lemma iteration_wrong_count_witness :
  iteration (H := target64) start (Line "1 1 1")
  = Return {| game := game start;
              stdout := stdout start ++ header (game start)
                          ++ ["Incorrect number of arguments"] |}.
Proof.
  apply (iteration_wrong_count (H := target64)); [constructor | by vm_compute].
Defined.

Lemma main_exit_announces_witness :
  let m := final (lines_of row_moves) in
  (last (stdout m) = Some "Player 1 wins!"
   ↔ wins (board (game m)) BoardCell.X = true) ∧
  (last (stdout m) = Some "Player 2 wins!"
   ↔ wins (board (game m)) BoardCell.O = true) ∧
  (last (stdout m) = Some "The game was a draw"
   ↔ wins (board (game m)) BoardCell.X = false ∧
     wins (board (game m)) BoardCell.O = false ∧
     full (board (game m)) = true).
Proof.
  apply (main_exit_announces (H := target64) (lines_of row_moves)).
  by vm_compute.
Defined.

(** In [mid_game] the cell of column 0 and row 1 is taken, by O. *)
Lemma iteration_refused_move_witness :
  iteration (H := target64) (resume mid_game)
    (Line (decimal 0 +:+ " " +:+ decimal 1 +:+ LF))
  = Return {| game := mid_game;
              stdout := header mid_game ++
                ["You can't change your or a previous player's answer"] |}.
Proof.
  apply (iteration_refused_move (H := target64) (resume mid_game) 0%N 1%N
           (board mid_game) BoardError.AlreadyChanged);
    [apply (steps_rtc (H := target64) (take 4 row_moves)) | ..]; by vm_compute.
Defined.

(** The line "a 1": the first piece is not a number. *)
Lemma iteration_two_pieces_witness :
  iteration (H := target64) start (typed "a 1")
  = match parse_usize (H := target64) (trim "a"),
          parse_usize (H := target64) (trim ("1" +:+ LF)) with
    | Ok x, Ok y =>
        turn (H := target64) (println (prompt_text BoardCell.X)
                                (println (render (board initial)) start)) x y
    | Err e, Ok _ | Ok _, Err e =>
        Return {| game := initial;
                  stdout := header initial ++ [ParseIntError.description e] |}
    | Err e1, Err e2 =>
        Return {| game := initial;
                  stdout := header initial ++
                    [ParseIntError.description e1 +:+ ", "
                     +:+ ParseIntError.description e2] |}
    end.
Proof.
  apply (iteration_two_pieces (H := target64) start ("a 1" +:+ LF) "a" ("1" +:+ LF));
    [constructor | by vm_compute].
Defined.
