(* ===== verification/Console.v ===== *)
(** * Console: [main] as a program that talks to the console

    [Game] runs [main] on a list of lines given in advance and collects
    what it prints.  This file gives [main] as an interaction tree: a
    program that asks the console for a line ([ReadLn]) and sends it a line
    ([PrintLn]) in the order in which the source does, and that may go on
    for ever.  A panic ends the program: it is a result, [Panic], of the
    tree.

    - [println_it], [println_fmt_it], [prompt_it], [turn_it], [answer_it],
      [iteration_it]: the statements of the loop body, one event per
      [println!] and per [read_line]; [main_loop_it] is the [while let]
      loop, with library's [ITree.iter]; [main_it] is [main].
    - [console] is the console of a run whose input is a file or a pipe:
      it answers [ReadLn] with the lines of the input in turn and, once
      they are used up, with the empty line that [read_line] returns at the
      end of input, and it records what is printed.

    The theorems: against every console, [main_it] never panics and leaves
    its loop only in an ended position reached by accepted moves; on an
    input that holds a complete game its run is the run of [Game.main]
    (same output, same lines left unread); on an input that ends with the
    game in progress its run never returns. *)

From Stdlib Require Import Ascii String.
From ITree Require Import ITree ITreeFacts Events.State Events.StateFacts.
From ITree Require Import Props.HasPost Props.Leaf.
From stdpp Require Import base decidable list numbers relations strings.
From S2P Require Import Prelude Cell Board Rules Render Text Game.

(** ** Events and programs *)

(** What [main] asks of the console. *)
Variant consoleE : Type → Type :=
| ReadLn : consoleE ReadLine
| PrintLn (s : string) : consoleE unit.

(** A program: a tree of console events whose result is a value or a
    panic. *)
Definition Prog (A : Type) : Type := itree consoleE (Run A).

#[export] Instance Prog_ret : MRet Prog := λ A a, Ret (Return a).

#[export] Instance Prog_bind : MBind Prog := λ A B k t,
  ITree.bind t (λ r, match r with
                     | Return a => k a
                     | Panic p => Ret (Panic p)
                     end).

(** A computation without events. *)
Definition lift {A} (r : Run A) : Prog A := Ret r.

(** [stdin.read_line(&mut userInput)]. *)
Definition read_line : Prog ReadLine :=
  ITree.bind (ITree.trigger ReadLn) (λ r, Ret (Return r)).

(** [println!("..")] of a literal. *)
Definition println_it (s : string) : Prog unit :=
  ITree.bind (ITree.trigger (PrintLn s)) (λ _, Ret (Return tt)).

(** [println!("{a}")]. *)
Definition println_fmt_it {A} `{Display A} (a : A) : Prog unit :=
  s ← lift (fmt a); println_it s.

(** [println!("{e1}, {e2}")]. *)
Definition println_fmt2_it {A} `{Display A} (a1 a2 : A) : Prog unit :=
  s1 ← lift (fmt a1); s2 ← lift (fmt a2); println_it (s1 +:+ ", " +:+ s2).

(** The [match playerState] that prints the prompt. *)
Definition prompt_it (g : Game) : Prog unit :=
  match playerState g with
  | BoardCell.X => println_it "Player 1: "
  | BoardCell.O => println_it "Player 2: "
  | BoardCell.None => lift (Panic Unreachable)
  end.

Section main_it.
Context `{Target}.

(** The [match board.changeState(playerState, (x, y))] and the switch of
    the player that follows it. *)
Definition turn_it (g : Game) (x y : usize) : Prog Game :=
  '(board', result) ←
    lift (TicTacToeBoard.changeState (board g) (playerState g) (x, y));
  match result with
  | Ok state =>
      playerState' ← lift (switch_player (playerState g));
      mret {| board := board';
              playerState := playerState';
              gameState := state |}
  | Err e =>
      _ ← println_fmt_it e;
      mret {| board := board';
              playerState := playerState g;
              gameState := gameState g |}
  end.

(** The [if stdin.read_line(&mut userInput).is_ok() { .. }], given what
    [read_line] returned. *)
Definition answer_it (g : Game) (r : ReadLine) : Prog Game :=
  match r with
  | ReadError => mret g
  | Line userInput =>
      let args := split_space userInput in
      if negb (length args =? 2)%nat
      then _ ← println_it "Incorrect number of arguments"; mret g
      else
        arg0 ← lift (index args 0);
        arg1 ← lift (index args 1);
        match parse_usize (trim arg0), parse_usize (trim arg1) with
        | Ok x, Ok y => turn_it g x y
        | Err e, Ok _ => _ ← println_fmt_it e; mret g
        | Ok _, Err e => _ ← println_fmt_it e; mret g
        | Err e1, Err e2 => _ ← println_fmt2_it e1 e2; mret g
        end
  end.

(** The body of the loop. *)
Definition iteration_it (g : Game) : Prog Game :=
  _ ← println_fmt_it (board g);
  _ ← prompt_it g;
  r ← read_line;
  answer_it g r.

(** One round of [while let GameState::InProgress = gameState]: the body
    and again ([inl]), or the end of the loop ([inr]), which a panic of the
    body is too. *)
Definition while_body (g : Game) : itree consoleE (Game + Run Game) :=
  match gameState g with
  | GameState.InProgress =>
      ITree.bind (iteration_it g)
        (λ r, match r with
              | Return g' => Ret (inl g')
              | Panic p => Ret (inr (Panic p))
              end)
  | GameState.End _ => Ret (inr (Return g))
  end.

Definition main_loop_it : Game → Prog Game := ITree.iter while_body.

Definition main_it : Prog unit :=
  g ← main_loop_it initial;
  println_fmt_it (gameState g).

End main_it.

(** ** The console of a run on given input *)

(** The lines not read yet and the lines printed so far. *)
Record World : Type := {
  pending : list ReadLine;
  shown : list string;
}.

(** What the next [read_line] returns, and what is left to read after
    it: at the end of input, [Ok(0)] with nothing in the buffer. *)
Definition next_line (w : World) : ReadLine * list ReadLine :=
  match pending w with
  | r :: rest => (r, rest)
  | [] => (Line "", [])
  end.

Definition console : consoleE ~> Monads.stateT World (itree void1) :=
  λ _ e w,
    match e with
    | ReadLn =>
        Ret ({| pending := (next_line w).2; shown := shown w |},
             (next_line w).1)
    | PrintLn s => Ret ({| pending := pending w; shown := shown w ++ [s] |}, tt)
    end.

(** The run of a program on the lines [stdin]. *)
Definition run {A} (t : Prog A) (stdin : list ReadLine)
  : itree void1 (World * Run A) :=
  interp_state console t {| pending := stdin; shown := [] |}.

(** ** Lemmas: programs in terms of [Game] *)

Local Open Scope itree_scope.

(** Printing the lines [out], in order. *)
Fixpoint emit (out : list string) : itree consoleE unit :=
  match out with
  | [] => Ret tt
  | s :: out' => ITree.bind (ITree.trigger (PrintLn s)) (λ _, emit out')
  end.

(** The program that prints what the computation [x] of [Game] printed and
    returns its game. *)
Definition perform (x : Run Main) : Prog Game :=
  match x with
  | Return m => ITree.bind (emit (stdout m)) (λ _, Ret (Return (game m)))
  | Panic p => Ret (Panic p)
  end.

#[local] Arguments parse_usize : simpl never.
#[local] Arguments trim : simpl never.
#[local] Arguments split_space : simpl never.
#[local] Arguments TicTacToeBoard.changeState : simpl never.
#[local] Arguments switch_player : simpl never.
#[local] Arguments index : simpl never.

(** Unfolds the statements of a program to binds of events. *)
Ltac prog_unfold :=
  unfold println_fmt_it, println_fmt2_it, prompt_it, read_line,
    println_fmt, println_fmt2, prompt, perform, resume;
  unfold println_it, lift, println;
  unfold mbind, mret, Prog_bind, Prog_ret.

(** Normalises binds: associativity, and [Ret] on the left. *)
Ltac prog_norm :=
  repeat first [rewrite bind_bind | rewrite bind_ret_l
               | setoid_rewrite bind_bind | setoid_rewrite bind_ret_l
               | progress simpl].

Ltac prog_simpl := prog_unfold; prog_norm; try reflexivity.

Section programs.
Context `{Target}.
Implicit Types (g : Game) (r : ReadLine) (w : World) (m : Main).

Lemma turn_it_perform g x y : turn_it g x y ≈ perform (turn (resume g) x y).
Proof.
  unfold turn_it, turn, resume. cbn [game stdout]. prog_unfold.
  destruct (TicTacToeBoard.changeState _ _ _) as [[b' [s|e]]|p];
    [destruct (switch_player _) | destruct e |]; prog_norm; reflexivity.
Qed.

#[local] Opaque turn_it turn.

Lemma answer_it_perform g r : answer_it g r ≈ perform (answer (resume g) r).
Proof.
  destruct r as [userInput|]; unfold answer_it, answer; cbn zeta;
    [destruct (negb _);
       [|destruct (index _ 0) as [arg0|];
           [destruct (index _ 1) as [arg1|]|]]|];
    prog_simpl.
  destruct (parse_usize (trim arg0)) as [x|[]],
    (parse_usize (trim arg1)) as [y|[]]; prog_norm; try reflexivity.
  apply turn_it_perform.
Qed.

#[local] Opaque answer_it answer.

(** The body of the loop: the board and the prompt are printed, the line
    is read, and the rest is [Game.answer]. *)
Lemma iteration_it_perform g :
  game_inv g →
  iteration_it g
  ≈ ITree.bind (emit (header g))
      (λ _, ITree.bind (ITree.trigger ReadLn)
              (λ r, perform (answer (resume g) r))).
Proof.
  intros Hinv. unfold iteration_it, header. prog_unfold.
  rewrite (fmt_render _ (inv_wf _ Hinv)).
  pose proof (inv_player _ Hinv) as Hplayer.
  destruct (playerState g); try done; prog_norm;
    do 2 (apply eqit_bind; [reflexivity | intros _]);
    apply eqit_bind; try reflexivity; intros r; apply answer_it_perform.
Qed.

End programs.

(** ** Lemmas: runs *)

(** The console after [out] was printed, and after a line was read. *)
Definition printed (out : list string) (w : World) : World :=
  {| pending := pending w; shown := shown w ++ out |}.

Definition after_read (w : World) : World :=
  {| pending := (next_line w).2; shown := shown w |}.

Section runs.
Context `{Target}.
Implicit Types (g : Game) (r : ReadLine) (w : World) (m : Main).

Lemma run_emit out w :
  interp_state console (emit out) w ≈ Ret (printed out w, tt).
Proof.
  revert w; induction out as [|s out IH]; intros w; simpl.
  - rewrite interp_state_ret. unfold printed. rewrite app_nil_r.
    by destruct w.
  - rewrite interp_state_bind, interp_state_trigger. cbn.
    rewrite bind_ret_l, IH. unfold printed; simpl. by rewrite <-app_assoc.
Qed.

Lemma run_perform m w :
  interp_state console (perform (Return m)) w
  ≈ Ret (printed (stdout m) w, Return (game m)).
Proof.
  simpl. rewrite interp_state_bind, run_emit, bind_ret_l.
  by rewrite interp_state_ret.
Qed.

Lemma run_read w :
  interp_state console (ITree.trigger ReadLn) w
  ≈ Ret (after_read w, (next_line w).1).
Proof. by rewrite interp_state_trigger. Qed.

Lemma next_line_printed out w : next_line (printed out w) = next_line w.
Proof. done. Qed.

(** The run of the body of the loop: it prints the board and the prompt,
    reads the next line and does what [Game.answer] does with it. *)
Lemma run_iteration_it g w m :
  game_inv g → answer (resume g) (next_line w).1 = Return m →
  interp_state console (iteration_it g) w
  ≈ Ret (printed (stdout m) (after_read (printed (header g) w)),
         Return (game m)).
Proof.
  intros Hinv Hanswer. rewrite iteration_it_perform by done.
  rewrite interp_state_bind, run_emit, bind_ret_l.
  rewrite interp_state_bind, run_read, bind_ret_l.
  cbn [fst snd]. rewrite next_line_printed, Hanswer. apply run_perform.
Qed.

(** One round of the loop. *)
Lemma main_loop_it_unfold g :
  main_loop_it g
  ≈ match gameState g with
    | GameState.InProgress =>
        ITree.bind (iteration_it g)
          (λ x, match x with
                | Return g' => main_loop_it g'
                | Panic p => Ret (Panic p)
                end)
    | GameState.End _ => Ret (Return g)
    end.
Proof.
  unfold main_loop_it. rewrite unfold_iter. unfold while_body.
  destruct (gameState g); [|by rewrite bind_ret_l].
  rewrite bind_bind. apply eqit_bind; [reflexivity|].
  intros [g'|p]; rewrite bind_ret_l; [apply tau_eutt | reflexivity].
Qed.

(** The run of the loop on the lines that [Game.main_loop] uses is at the
    state in which [Game.main_loop] stops. *)
Lemma run_main_loop stdin m m' rest :
  rtc play initial (game m) → main_loop stdin m = Return (m', rest) →
  interp_state console (main_loop_it (game m))
    {| pending := stdin; shown := stdout m |}
  ≈ interp_state console (main_loop_it (game m'))
      {| pending := rest; shown := stdout m' |}.
Proof.
  revert m. induction stdin as [|r stdin IH]; intros m Hplayed; simpl;
    destruct (gameState (game m)) eqn:Hstate; try (by intros [= <- <-]).
  pose proof (rtc_play_inv _ Hplayed) as Hinv.
  rewrite iteration_resume by done.
  destruct (answer_returns (game m) r) as (m1 & Hanswer & Hstep); [done..|].
  rewrite Hanswer; simpl. intros Hloop.
  rewrite main_loop_it_unfold, Hstate, interp_state_bind.
  rewrite (run_iteration_it _ _ m1), bind_ret_l by done.
  apply (IH (printed_after (stdout m ++ header (game m)) m1)); [|done].
  simpl. destruct Hstep as [-> | ?]; eauto using rtc_r.
Qed.

End runs.

(** ** Theorems *)

Section console_theorems.
Context `{Target}.
Implicit Types (g : Game) (w : World) (m : Main).

Lemma run_println_fmt_it {A} `{Display A} (a : A) s w :
  fmt a = Return s →
  interp_state console (println_fmt_it a) w ≈ Ret (printed [s] w, Return tt).
Proof.
  intros Hs. unfold println_fmt_it. prog_unfold. rewrite Hs, bind_ret_l.
  rewrite interp_state_bind, interp_state_trigger. cbn.
  by rewrite bind_ret_l, interp_state_ret.
Qed.

Lemma has_post_Ret {E A} (a : A) (Q : A → Prop) :
  Q a → has_post (Ret a : itree E A) Q.
Proof. intros Ha. by apply eqit_Ret. Qed.

(** Every result of the body of the loop, whatever the console answers,
    is a game: the one it started with, or one step further. *)
Lemma iteration_it_post g :
  rtc play initial g → gameState g = GameState.InProgress →
  has_post (iteration_it g) (λ x, ∃ g', x = Return g' ∧ rtc play initial g').
Proof.
  intros Hplayed Hstate. pose proof (rtc_play_inv _ Hplayed) as Hinv.
  rewrite iteration_it_perform by done.
  do 2 (apply has_post_bind_weak; intros ?).
  destruct (answer_returns g x0) as (m & -> & Hstep); [done..|].
  apply has_post_bind_weak; intros _. apply has_post_Ret.
  exists (game m). split; [done|].
  destruct Hstep as [-> | ?]; eauto using rtc_r.
Qed.

(** The loop is left only in an ended position reached by accepted moves. *)
Lemma main_loop_it_post :
  has_post (main_loop_it initial)
    (λ x, ∃ g, x = Return g ∧ rtc play initial g
               ∧ gameState g ≠ GameState.InProgress).
Proof.
  apply has_post_iter_strong with (Inv := λ g, rtc play initial g);
    [|constructor].
  intros g Hplayed. unfold while_body.
  destruct (gameState g) eqn:Hstate.
  - eapply has_post_bind; [by apply iteration_it_post|].
    intros x (g' & -> & Hg'). by apply has_post_Ret.
  - apply has_post_Ret. exists g. by rewrite Hstate.
Qed.

(** With nothing left to read and the game in progress, the loop never
    returns. *)
Lemma main_loop_it_at_end g w x :
  rtc play initial g → gameState g = GameState.InProgress → pending w = [] →
  ¬ Leaf x (interp_state console (main_loop_it g) w).
Proof.
  intros Hplayed Hstate Hw Hx.
  apply (Leaf_interp_state_iter_inv console while_body
           (λ w, pending w = [])
           (λ g, rtc play initial g ∧ gameState g = GameState.InProgress)
           (λ _, False)) in Hx; [by destruct x as [? ?], Hx | | done..].
  clear. intros w g Hw [Hplayed Hstate] sx Hsx.
  unfold while_body in Hsx. rewrite Hstate, interp_state_bind in Hsx.
  destruct (answer_idle g (next_line w).1) as (m & Hanswer & Hgame).
  { unfold next_line. by rewrite Hw. }
  rewrite (run_iteration_it _ _ m), bind_ret_l in Hsx
    by eauto using rtc_play_inv.
  cbn [fst snd] in Hsx. rewrite interp_state_ret in Hsx.
  apply Leaf_Ret_inv in Hsx as ->. split; simpl; [|by rewrite Hgame].
  rewrite next_line_printed. unfold next_line. by rewrite Hw.
Qed.

(** C4: against every console, [main] does not panic: whatever the lines
    read, however many, every run of [main_it] that ends returns normally;
    no [unreachable!()] is reached, no index is out of range, no [usize]
    operation overflows. *)
Theorem main_it_no_panic : has_post main_it (λ x, x = Return tt).
Proof.
  unfold main_it. eapply has_post_bind; [apply main_loop_it_post|].
  intros x (g & -> & _ & _).
  destruct (GameState_fmt_total (gameState g)) as [s Hs].
  unfold println_fmt_it. prog_unfold. rewrite Hs, bind_ret_l.
  apply has_post_bind_weak; intros _. by apply has_post_Ret.
Qed.

(** C8: on an input that holds a complete game, the run of [main_it] is
    the run of [Game.main]: it returns normally, it has printed what
    [Game.main] has printed, in the same order, and it has left unread the
    lines that [Game.main_loop] has left. *)
Theorem run_main_it_exits stdin m0 rest m :
  main_loop stdin start = Return (m0, rest) →
  main stdin = Return (Exited m) →
  run main_it stdin ≈ Ret ({| pending := rest; shown := stdout m |}, Return tt).
Proof.
  intros Hloop. unfold main, run, main_it. rewrite Hloop; simpl.
  destruct (gameState (game m0)) as [|c] eqn:Hstate;
    [by destruct (_ ≫= _)|].
  destruct (GameState_fmt_total (GameState.End c)) as [s Hs].
  erewrite println_fmt_returns by done. intros [= <-].
  unfold mbind, Prog_bind. rewrite interp_state_bind.
  rewrite (run_main_loop stdin start m0 rest) by (done || constructor).
  rewrite main_loop_it_unfold, Hstate, interp_state_ret, bind_ret_l.
  cbn [fst snd]. rewrite Hstate. by apply run_println_fmt_it.
Qed.

(** C9: on an input that ends with the game in progress, the run of
    [main_it] never returns: at the end of input [read_line] returns an
    empty line each time it is called, the line is refused, and the loop
    goes round again, printing the board, the prompt and "Incorrect number
    of arguments" without end.  The final [println!] is never reached. *)
Theorem run_main_it_never_returns stdin m x :
  main stdin = Return (Waiting m) → ¬ Leaf x (run main_it stdin).
Proof.
  unfold main, run, main_it.
  destruct (main_loop_returns stdin start) as (m0 & rest & n & Hloop & Hlooped);
    [constructor|].
  rewrite Hloop; simpl.
  destruct (gameState (game m0)) eqn:Hstate; [|by destruct (println_fmt _ _)].
  intros _. unfold mbind, Prog_bind. rewrite interp_state_bind.
  rewrite (run_main_loop stdin start m0 rest) by (done || constructor).
  intros (sx & Hsx & _)%Leaf_bind_inv. revert Hsx.
  apply main_loop_it_at_end; [|done|by apply (looped_stop _ _ _ _ _ Hlooped)].
  apply (rtc_nsteps_2 n), (looped_steps _ _ _ _ _ Hlooped).
Qed.

End console_theorems.

(** ** Witnesses *)

Lemma run_main_it_exits_witness :
  run (main_it (H := target64)) (lines_of row_moves)
  ≈ Ret ({| pending := (stopped (lines_of row_moves)).2;
            shown := stdout (final (lines_of row_moves)) |}, Return tt).
Proof.
  apply (run_main_it_exits (H := target64) _ (stopped (lines_of row_moves)).1);
    by vm_compute.
Defined.

Lemma run_main_it_never_returns_witness :
  ¬ Leaf ({| pending := []; shown := [] |}, Return tt)
      (run (main_it (H := target64)) [typed "1 1"]).
Proof.
  apply (run_main_it_never_returns (H := target64) _ (final [typed "1 1"])).
  by vm_compute.
Defined.
